(** * LinkUpdater: a shallow embedding of [link_updater_V2.py]

    The script walks a directory tree, selects the files whose extension is
    in a configured list, and replaces one IP-address string by another in
    each of them, optionally keeping a [.bak] copy and optionally in a
    dry-run mode that writes nothing.

    Layout of this development:
    - [Text]: Python's [str.replace], [str.count], [str.lower], [str.split],
      [str.join] and the UTF-8 codec used by text-mode files;
    - [Re]: the fragment of [re] the script uses, with Python's meaning of
      [^] and [$];
    - [Pathlib]: the path kept by [Path(...)], [suffix] and [with_suffix];
    - the file store, in which several paths may name one file, the
      [LinkUpdater] object and its methods, written in a
      state-and-exception monad;
    - the notions the statements use, concrete stores and tactics;
    - the properties of the methods. *)

From Stdlib Require Import ZArith NArith Ascii String List Lia Bool.
From Stdlib.Strings Require Import Byte.
From stdpp Require Import base option list gmap strings.

Local Open Scope string_scope.
Local Open Scope list_scope.

(** ** Text *)

Module Text.

(** The content of a file, once decoded, is a sequence of code points.
    Command-line strings and file names are [string]s, whose characters
    are the code points below 256; [cps] injects them into texts. *)
Definition text := list N.

Definition cps (s : string) : text :=
  map N_of_ascii (list_ascii_of_string s).

Fixpoint starts_with (p s : text) : bool :=
  match p, s with
  | [], _ => true
  | _ :: _, [] => false
  | a :: p', b :: s' => N.eqb a b && starts_with p' s'
  end.

(** [str.replace(old, new)]: the text is scanned from the left; where [old]
    starts, [new] is emitted and the scan resumes after the match, so the
    replaced occurrences do not overlap. [skip] counts the characters of
    the current match still to be passed over. An empty [old] matches
    before every character and at the end. *)
Fixpoint replace_scan (old new : text) (skip : nat) (s : text) {struct s} : text :=
  match skip, s with
  | S k, [] => []
  | S k, _ :: s' => replace_scan old new k s'
  | O, [] => if starts_with old [] then new else []
  | O, c :: s' =>
      if starts_with old s then
        new ++ match length old with
               | O => c :: replace_scan old new 0 s'
               | S k => replace_scan old new k s'
               end
      else c :: replace_scan old new 0 s'
  end.

Definition replace (old new s : text) : text := replace_scan old new 0 s.

(** [str.count(sub)]: the number of non-overlapping occurrences found by
    the same left-to-right scan; [len(s) + 1] for an empty [sub]. *)
Fixpoint count_scan (sub : text) (skip : nat) (s : text) {struct s} : nat :=
  match skip, s with
  | S k, [] => 0
  | S k, _ :: s' => count_scan sub k s'
  | O, [] => if starts_with sub [] then 1 else 0
  | O, c :: s' =>
      if starts_with sub s then
        S match length sub with
          | O => count_scan sub 0 s'
          | S k => count_scan sub k s'
          end
      else count_scan sub 0 s'
  end.

Definition count (sub s : text) : nat := count_scan sub 0 s.

(** [str.lower()] on strings of code points below 256, where Python's
    mapping works character by character: A-Z, and U+00C0-U+00DE except
    the multiplication sign U+00D7, move up by 32. *)
Definition lower_char (c : ascii) : ascii :=
  let n := N_of_ascii c in
  if ((65 <=? n) && (n <=? 90))%N then ascii_of_N (n + 32)
  else if ((192 <=? n) && (n <=? 222) && negb (n =? 215))%N then ascii_of_N (n + 32)
  else c.

Fixpoint lower (s : string) : string :=
  match s with
  | EmptyString => EmptyString
  | String c s' => String (lower_char c) (lower s')
  end.

(** [s.startswith('.')] *)
Definition startswith_dot (s : string) : bool :=
  match s with
  | String "." _ => true
  | _ => false
  end.

(** [s.split(c)] *)
Fixpoint split_on (c : ascii) (s : string) : list string :=
  match s with
  | EmptyString => [EmptyString]
  | String a s' =>
      if Ascii.eqb a c then EmptyString :: split_on c s'
      else match split_on c s' with
           | g :: gs => String a g :: gs
           | [] => [String a EmptyString]
           end
  end.

(** [c.join(l)] *)
Fixpoint join (c : ascii) (l : list string) : string :=
  match l with
  | [] => EmptyString
  | [g] => g
  | g :: l' => g +:+ String c (join c l')
  end.

(** *** The UTF-8 codec of text-mode files *)

Definition is_cont (b : N) : bool := ((128 <=? b) && (b <=? 191))%N.

(** The second byte allowed after a three-byte lead: E0 needs A0-BF (no
    overlong forms), ED needs 80-9F (no surrogates). *)
Definition second_of3 (b0 b1 : N) : bool :=
  is_cont b1 &&
  negb (if (b1 <? 160)%N then (b0 =? 224)%N else (b0 =? 237)%N).

(** The second byte allowed after a four-byte lead: F0 needs 90-BF, F4
    needs 80-8F. *)
Definition second_of4 (b0 b1 : N) : bool :=
  is_cont b1 &&
  negb (if (b1 <? 144)%N then (b0 =? 240)%N else (b0 =? 244)%N).

(** [bytes.decode('utf-8', errors='ignore')]: a byte that cannot start a
    sequence is dropped; a sequence broken by a wrong continuation byte is
    dropped up to that byte, where decoding resumes; a sequence cut by the
    end of the input is dropped. *)
Fixpoint utf8_decode (bs : list N) : text :=
  match bs with
  | [] => []
  | b0 :: r0 =>
      if (b0 <? 128)%N then b0 :: utf8_decode r0
      else if (b0 <? 194)%N then utf8_decode r0
      else if (b0 <? 224)%N then
        match r0 with
        | [] => []
        | b1 :: r1 =>
            if is_cont b1
            then ((b0 - 192) * 64 + (b1 - 128))%N :: utf8_decode r1
            else utf8_decode r0
        end
      else if (b0 <? 240)%N then
        match r0 with
        | [] => []
        | b1 :: r1 =>
            if second_of3 b0 b1 then
              match r1 with
              | [] => []
              | b2 :: r2 =>
                  if is_cont b2
                  then ((b0 - 224) * 4096 + (b1 - 128) * 64 + (b2 - 128))%N
                         :: utf8_decode r2
                  else utf8_decode r1
              end
            else utf8_decode r0
        end
      else if (b0 <? 245)%N then
        match r0 with
        | [] => []
        | b1 :: r1 =>
            if second_of4 b0 b1 then
              match r1 with
              | [] => []
              | b2 :: r2 =>
                  if is_cont b2 then
                    match r2 with
                    | [] => []
                    | b3 :: r3 =>
                        if is_cont b3
                        then ((b0 - 240) * 262144 + (b1 - 128) * 4096
                              + (b2 - 128) * 64 + (b3 - 128))%N
                               :: utf8_decode r3
                        else utf8_decode r2
                    end
                  else utf8_decode r1
              end
            else utf8_decode r0
        end
      else utf8_decode r0
  end.

(** Universal newlines on reading: [\r\n] and a lone [\r] become [\n]. *)
Fixpoint universal_newlines (t : text) : text :=
  match t with
  | [] => []
  | 13%N :: t' =>
      10%N :: match t' with
              | 10%N :: t'' => universal_newlines t''
              | _ => universal_newlines t'
              end
  | c :: t' => c :: universal_newlines t'
  end.

(** [f.read()] of [open(path, 'r', encoding='utf-8', errors='ignore')]. *)
Definition decode (bs : list byte) : text :=
  universal_newlines (utf8_decode (map Byte.to_N bs)).

Definition byte_of_N (n : N) : byte :=
  match Byte.of_N n with Some b => b | None => x00 end.

(** The UTF-8 form of one code point. *)
Definition utf8_encode_cp (c : N) : list byte :=
  if (c <? 128)%N then [byte_of_N c]
  else if (c <? 2048)%N then
    [byte_of_N (192 + c / 64); byte_of_N (128 + c mod 64)]
  else if (c <? 65536)%N then
    [byte_of_N (224 + c / 4096); byte_of_N (128 + (c / 64) mod 64);
     byte_of_N (128 + c mod 64)]
  else
    [byte_of_N (240 + c / 262144); byte_of_N (128 + (c / 4096) mod 64);
     byte_of_N (128 + (c / 64) mod 64); byte_of_N (128 + c mod 64)].

(** [f.write(content)] of [open(path, 'w', encoding='utf-8')], with the
    POSIX line separator (a newline is written as it is). *)
Definition encode (t : text) : list byte := flat_map utf8_encode_cp t.

End Text.

Import Text.

(** ** Exceptions and results *)

Definition path := (string * string)%type.

Inductive value_error :=
| DirectoryDoesNotExist (d : string)
| PathIsNotADirectory (d : string)
| InvalidOldIP (ip : string)
| InvalidNewIP (ip : string)
| SameIP
| InvalidSuffix (sfx : string)
| EmptyName.

(** The exceptions the script meets. [PermissionError] comes from opening
    a file, [PermissionDenied] is the [PermissionError] that [os.stat]
    raises for a path below a directory that may not be searched, and
    [OSError] is a write that fails once the file is open. *)
Inductive exn :=
| FileNotFoundError (p : path)
| PermissionError (p : path)
| PermissionDenied (d : string)
| OSError (p : path)
| ValueError (why : value_error).

Inductive result (A : Type) :=
| Ok (a : A)
| Raise (e : exn).
Arguments Ok {A} a.
Arguments Raise {A} e.

(** ** The fragment of [re] used by the script *)

Module Re.

Inductive regex :=
| Bol                                   (* ^ *)
| Eol                                   (* $ *)
| Chr (c : ascii)                       (* an escaped literal such as \. *)
| Range (lo hi : ascii)                 (* [lo-hi] *)
| Cat (r1 r2 : regex)
| Repeat (r : regex) (lo hi : nat).     (* r{lo,hi} *)

(** Without [re.MULTILINE], [$] matches at the end of the string and also
    just before a newline that is the last character of the string. *)
Definition at_end (s : string) : bool :=
  match s with
  | EmptyString => true
  | String c EmptyString => Ascii.eqb c "010"
  | _ => false
  end.

Definition in_range (lo hi c : ascii) : bool :=
  (N_of_ascii lo <=? N_of_ascii c)%N && (N_of_ascii c <=? N_of_ascii hi)%N.

(** A backtracking matcher: [exec r pos s k] tries to match [r] at offset
    [pos], where [s] is what remains of the subject, and hands the offset
    and the remainder after the match to [k]. A repetition first tries one
    more round, then to stop. *)
Fixpoint exec (r : regex) (pos : nat) (s : string)
    (k : nat -> string -> bool) {struct r} : bool :=
  match r with
  | Bol => Nat.eqb pos 0 && k pos s
  | Eol => at_end s && k pos s
  | Chr c =>
      match s with
      | String a s' => Ascii.eqb a c && k (S pos) s'
      | EmptyString => false
      end
  | Range lo hi =>
      match s with
      | String a s' => in_range lo hi a && k (S pos) s'
      | EmptyString => false
      end
  | Cat r1 r2 => exec r1 pos s (fun pos' s' => exec r2 pos' s' k)
  | Repeat r1 lo hi =>
      (fix rep (lo hi pos : nat) (s : string) {struct hi} : bool :=
         match hi with
         | O => Nat.eqb lo 0 && k pos s
         | S hi' =>
             exec r1 pos s (fun pos' s' => rep (Nat.pred lo) hi' pos' s')
             || (Nat.eqb lo 0 && k pos s)
         end) lo hi pos s
  end.

(** [re.match(pattern, s)] as a truth value: the pattern is tried at offset
    0 and may stop anywhere. *)
Definition re_match (r : regex) (s : string) : bool :=
  exec r 0 s (fun _ _ => true).

Definition digit : regex := Range "0" "9".

(** [r'^(?:[0-9]{1,3}\.){3}[0-9]{1,3}$'] *)
Definition ip_pattern : regex :=
  Cat Bol
    (Cat (Repeat (Cat (Repeat digit 1 3) (Chr ".")) 3 3)
       (Cat (Repeat digit 1 3) Eol)).

End Re.

(** ** The fragment of [pathlib] used by the script *)

Module Pathlib.

(** A path is kept as the directory it lies in and its final component. *)
Definition parent (p : path) : string := fst p.
Definition name (p : path) : string := snd p.

(** The anchor of a POSIX path: two leading slashes are kept, one or more
    than two are a single slash. *)
Definition anchor (s : string) : string :=
  match s with
  | String "/" (String "/" (String "/" _)) => "/"
  | String "/" (String "/" _) => "//"
  | String "/" _ => "/"
  | _ => ""
  end.

(** The components of a path: empty ones and [.] are dropped. *)
Definition parts (s : string) : list string :=
  List.filter (fun c => negb (String.eqb c "") && negb (String.eqb c "."))
    (split_on "/" s).

(** [str(Path(s))]: the path as [pathlib] keeps it. *)
Definition Path (s : string) : string :=
  match anchor s, parts s with
  | EmptyString, [] => "."
  | r, ps => r +:+ join "/" ps
  end.

(** [Path(root) / file] for a bare file name. *)
Definition joinpath (root file : string) : path := (Path root, file).

(** [s.rfind(c)], with [None] for -1. *)
Fixpoint rfind (c : ascii) (s : string) : option nat :=
  match s with
  | EmptyString => None
  | String a s' =>
      match rfind c s' with
      | Some i => Some (S i)
      | None => if Ascii.eqb a c then Some 0 else None
      end
  end.

Fixpoint sdrop (n : nat) (s : string) : string :=
  match n, s with
  | S n', String _ s' => sdrop n' s'
  | _, _ => s
  end.

Fixpoint stake (n : nat) (s : string) : string :=
  match n, s with
  | S n', String a s' => String a (stake n' s')
  | _, _ => EmptyString
  end.

Fixpoint contains (c : ascii) (s : string) : bool :=
  match s with
  | EmptyString => false
  | String a s' => Ascii.eqb a c || contains c s'
  end.

(** [PurePath.suffix]: the part of the name from its last dot on, unless
    that dot is the first or the last character of the name. *)
Definition suffix_of_name (nm : string) : string :=
  match rfind "." nm with
  | Some i =>
      if Nat.ltb 0 i && Nat.ltb i (String.length nm - 1) then sdrop i nm
      else EmptyString
  | None => EmptyString
  end.

Definition suffix (p : path) : string := suffix_of_name (name p).

(** [PurePath.with_suffix(sfx)] *)
Definition with_suffix (p : path) (sfx : string) : result path :=
  if contains "/" sfx then Raise (ValueError (InvalidSuffix sfx))
  else if (negb (String.eqb sfx "") && negb (startswith_dot sfx))
          || String.eqb sfx "."
  then Raise (ValueError (InvalidSuffix sfx))
  else if String.eqb (name p) "" then Raise (ValueError EmptyName)
  else
    let old_suffix := suffix p in
    if String.eqb old_suffix ""
    then Ok (parent p, name p +:+ sfx)
    else Ok (parent p,
             stake (String.length (name p) - String.length old_suffix) (name p)
             +:+ sfx).

End Pathlib.

Import Re Pathlib.

(** ** The file store *)

Record file := {
  data : list byte;
  readable : bool;
  writable : bool
}.

Inductive kind := Regular | Directory.

Definition inode := positive.

(** What [os.walk] yields: one [(root, dirs, files)] triple per directory,
    in traversal order. *)
Definition walk := list (string * list string * list string).

(** What the script can observe of the file system:
    - [stat]: what a path given on the command line names, and
      [unsearchable]: the paths [os.stat] may not look up;
    - [listing]: what [os.walk] yields for a directory;
    - [links] and [inodes]: the file a path names. Two paths with the same
      inode are one file under two names, which is how hard links and
      symbolic links to files appear to [open]; a path whose inode holds no
      file is a link to a file that does not exist;
    - [no_create]: the paths at which no file can be created, because the
      directory that would hold it takes no entry;
    - [write_faults]: the paths at which a write fails although the file
      can be opened (a full device, a file size limit), with the number of
      bytes that reach the file before the failure;
    - [placement]: where a directory lists a name that is created; the
      order of a directory is the file system's.

    A file operation fails in one of two ways: its [open] is refused, which
    leaves the store as it was, or the file is opened for writing, hence
    truncated or created, and the write that follows fails part-way. *)
Record filesystem := {
  stat : gmap string kind;
  unsearchable : gset string;
  listing : gmap string walk;
  links : gmap path inode;
  inodes : gmap inode file;
  no_create : gset path;
  write_faults : gmap path nat;
  placement : gmap path nat
}.

(** The file each path names, if any. *)
Definition files (f : filesystem) : gmap path file :=
  omap (fun i => inodes f !! i) (links f).

(** [Path.exists()] and [Path.is_dir()]: both call [os.stat] and let its
    [PermissionError] through. *)
Definition path_exists (f : filesystem) (d : string) : result bool :=
  if bool_decide (d ∈ unsearchable f) then Raise (PermissionDenied d)
  else Ok match stat f !! d with
          | Some _ => true
          | None => false
          end.

Definition is_dir (f : filesystem) (d : string) : result bool :=
  if bool_decide (d ∈ unsearchable f) then Raise (PermissionDenied d)
  else Ok match stat f !! d with
          | Some Directory => true
          | _ => false
          end.

Definition os_walk (f : filesystem) (top : string) : walk :=
  default [] (listing f !! top).

Definition set_inode (i : inode) (fl : file) (f : filesystem) : filesystem :=
  {| stat := stat f; unsearchable := unsearchable f; listing := listing f;
     links := links f; inodes := <[i := fl]> (inodes f);
     no_create := no_create f; write_faults := write_faults f;
     placement := placement f |}.

Definition set_link (p : path) (i : inode) (f : filesystem) : filesystem :=
  {| stat := stat f; unsearchable := unsearchable f; listing := listing f;
     links := <[p := i]> (links f); inodes := inodes f;
     no_create := no_create f; write_faults := write_faults f;
     placement := placement f |}.

Definition set_listing (w : gmap string walk) (f : filesystem) : filesystem :=
  {| stat := stat f; unsearchable := unsearchable f; listing := w;
     links := links f; inodes := inodes f;
     no_create := no_create f; write_faults := write_faults f;
     placement := placement f |}.

(** Reading the whole file, as bytes. *)
Definition read_file (f : filesystem) (p : path) : result (list byte) :=
  match files f !! p with
  | Some fl => if readable fl then Ok (data fl) else Raise (PermissionError p)
  | None => Raise (FileNotFoundError p)
  end.

Definition insert_at {A} (n : nat) (x : A) (l : list A) : list A :=
  take n l ++ x :: drop n l.

(** The walk once the directory of [q] lists the name of [q]. *)
Definition list_entry (n : nat) (q : path) (w : walk) : walk :=
  map (fun '(root, dirs, names) =>
         if String.eqb (Path root) (parent q)
            && negb (bool_decide (name q ∈ names))
         then (root, dirs, insert_at n (name q) names)
         else (root, dirs, names)) w.

(** The names under which an inode is known. *)
Definition names_of (f : filesystem) (i : inode) : list path :=
  elements (dom (filter (fun e => e.2 = i) (links f))).

(** The file of inode [i] comes into being, empty: every directory that
    holds a name of it lists that name from now on. *)
Definition create (i : inode) (f : filesystem) : filesystem :=
  set_listing
    (foldr (fun q w => list_entry (default 0 (placement f !! q)) q <$> w)
       (listing f) (names_of f i))
    (set_inode i {| data := []; readable := true; writable := true |} f).

(** An inode that no path names and that holds no file. *)
Definition fresh_inode (f : filesystem) : inode :=
  fresh (dom (inodes f) ∪ map_img (links f) : gset inode).

(** [open(p, 'w')]: the inode written to and the store once the file is
    open. An existing file is truncated, under all its names, and keeps
    its permissions; a new one is created empty. *)
Definition opened (f : filesystem) (p : path) : result (inode * filesystem) :=
  match links f !! p with
  | Some i =>
      match inodes f !! i with
      | Some fl =>
          if writable fl
          then Ok (i, set_inode i {| data := []; readable := readable fl;
                                     writable := true |} f)
          else Raise (PermissionError p)
      | None =>
          if bool_decide (p ∈ no_create f) then Raise (PermissionError p)
          else Ok (i, create i f)
      end
  | None =>
      if bool_decide (p ∈ no_create f) then Raise (PermissionError p)
      else Ok (fresh_inode f,
               create (fresh_inode f) (set_link p (fresh_inode f) f))
  end.

(** The data of inode [i] become [bs]. *)
Definition set_data (i : inode) (bs : list byte) (f : filesystem) : filesystem :=
  match inodes f !! i with
  | Some fl => set_inode i {| data := bs; readable := readable fl;
                              writable := writable fl |} f
  | None => f
  end.

(** Opening a file for writing, writing the data and closing it: the store
    this leaves, and the exception raised if any. When the write fails the
    file keeps the bytes written before the failure. *)
Definition write_file (f : filesystem) (p : path) (bs : list byte)
  : filesystem * option exn :=
  match opened f p with
  | Raise e => (f, Some e)
  | Ok (i, f') =>
      match write_faults f !! p with
      | Some n => (set_data i (take n bs) f', Some (OSError p))
      | None => (set_data i bs f', None)
      end
  end.

(** ** The [LinkUpdater] object *)

Inductive level := DEBUG | INFO | WARNING | ERROR.

(** One constructor per logging call of the script. *)
Inductive message :=
| CreatedBackup (backup_path : path)
| FailedToCreateBackup (file_path : path) (e : exn)
| DryRunWouldModify (file_path : path) (file_replacements : Z)
| Modified (file_path : path) (file_replacements : Z)
| NoChangesNeeded (file_path : path)
| ErrorProcessing (file_path : path) (e : exn)
| Starting
| DirectoryIs (d : string)
| FileExtensions (exts : list string)
| Replacing (old new : string)
| BackupEnabled (b : bool)
| DryRunIs (b : bool)
| NoFilesFound (exts : list string)
| FoundFiles (n : nat)
| Rule
| Summary
| FilesProcessed (n : Z)
| FilesModified (n : Z)
| TotalReplacements (n : Z)
| WasDryRun
| BackupsCreated
| ErrorMessage (e : exn).

Record LinkUpdater := {
  directory : string;
  old_ip : string;
  new_ip : string;
  extensions : list string;
  backup : bool;
  dry_run : bool;
  files_processed : Z;
  files_modified : Z;
  replacements_made : Z
}.

(** [LinkUpdater.__init__] *)
Definition init (directory old_ip new_ip : string)
    (extensions : option (list string)) (backup dry_run : bool) : LinkUpdater :=
  let exts :=
    match extensions with
    | Some (e :: l) => e :: l
    | _ => [".html"; ".htm"]
    end in
  let exts := map (fun ext => if startswith_dot ext then ext else "." +:+ ext) exts in
  let exts := map lower exts in
  {| directory := Path directory; old_ip := old_ip; new_ip := new_ip;
     extensions := exts; backup := backup; dry_run := dry_run;
     files_processed := 0; files_modified := 0; replacements_made := 0 |}.

Definition add_files_processed (n : Z) (u : LinkUpdater) : LinkUpdater :=
  {| directory := directory u; old_ip := old_ip u; new_ip := new_ip u;
     extensions := extensions u; backup := backup u; dry_run := dry_run u;
     files_processed := files_processed u + n;
     files_modified := files_modified u;
     replacements_made := replacements_made u |}.

Definition add_files_modified (n : Z) (u : LinkUpdater) : LinkUpdater :=
  {| directory := directory u; old_ip := old_ip u; new_ip := new_ip u;
     extensions := extensions u; backup := backup u; dry_run := dry_run u;
     files_processed := files_processed u;
     files_modified := files_modified u + n;
     replacements_made := replacements_made u |}.

Definition add_replacements_made (n : Z) (u : LinkUpdater) : LinkUpdater :=
  {| directory := directory u; old_ip := old_ip u; new_ip := new_ip u;
     extensions := extensions u; backup := backup u; dry_run := dry_run u;
     files_processed := files_processed u;
     files_modified := files_modified u;
     replacements_made := replacements_made u + n |}.

(** ** The monad of the methods: state and exceptions

    A method runs on the object, the file store and the log; what it did
    before raising stays done. *)

Record state := {
  self : LinkUpdater;
  fs : filesystem;
  log : list (level * message)
}.

Definition M (A : Type) : Type := state -> result A * state.

#[global] Instance M_ret : MRet M := fun A a s => (Ok a, s).

#[global] Instance M_bind : MBind M := fun A B k m s =>
  match m s with
  | (Ok a, s') => k a s'
  | (Raise e, s') => (Raise e, s')
  end.

Definition raise {A} (e : exn) : M A := fun s => (Raise e, s).

Definition try_except {A} (body : M A) (handler : exn -> M A) : M A :=
  fun s =>
    match body s with
    | (Ok a, s') => (Ok a, s')
    | (Raise e, s') => handler e s'
    end.

Definition gets {A} (proj : state -> A) : M A := fun s => (Ok (proj s), s).

Definition update_self (g : LinkUpdater -> LinkUpdater) : M unit :=
  fun s => (Ok tt, {| self := g (self s); fs := fs s; log := log s |}).

Definition logger (lvl : level) (msg : message) : M unit :=
  fun s => (Ok tt, {| self := self s; fs := fs s; log := log s ++ [(lvl, msg)] |}).

Definition lift {A} (r : result A) : M A := fun s => (r, s).

(** [file_path.read_bytes()] *)
Definition read_bytes (p : path) : M (list byte) := fun s => (read_file (fs s) p, s).

(** [open(file_path, 'r', encoding='utf-8', errors='ignore')] and [f.read()] *)
Definition read_text (p : path) : M text :=
  bs ← read_bytes p; mret (decode bs).

(** [backup_path.write_bytes(bs)] *)
Definition write_bytes (p : path) (bs : list byte) : M unit :=
  fun s =>
    let '(f', raised) := write_file (fs s) p bs in
    (match raised with None => Ok tt | Some e => Raise e end,
     {| self := self s; fs := f'; log := log s |}).

(** [open(file_path, 'w', encoding='utf-8')] and [f.write(content)] *)
Definition write_text (p : path) (content : text) : M unit :=
  write_bytes p (encode content).

Fixpoint for_each {A} (body : A -> M unit) (l : list A) : M unit :=
  match l with
  | [] => mret tt
  | x :: l' => body x;; for_each body l'
  end.

(** ** The methods *)

Definition validate_inputs : M unit :=
  u ← gets self;
  f ← gets fs;
  found ← lift (path_exists f (directory u));
  if negb found
  then raise (ValueError (DirectoryDoesNotExist (directory u)))
  else
    dir ← lift (is_dir f (directory u));
    if negb dir
    then raise (ValueError (PathIsNotADirectory (directory u)))
    else if negb (re_match ip_pattern (old_ip u))
    then raise (ValueError (InvalidOldIP (old_ip u)))
    else if negb (re_match ip_pattern (new_ip u))
    then raise (ValueError (InvalidNewIP (new_ip u)))
    else if String.eqb (old_ip u) (new_ip u)
    then raise (ValueError SameIP)
    else mret tt.

Definition matches_extension (exts : list string) (file : string) : bool :=
  bool_decide (lower (suffix_of_name file) ∈ exts).

(** The list built by the loops of [find_target_files]. *)
Definition target_files (u : LinkUpdater) (f : filesystem) : list path :=
  flat_map
    (fun '(root, dirs, files) =>
       map (joinpath root)
         (List.filter (matches_extension (extensions u)) files))
    (os_walk f (directory u)).

Definition find_target_files : M (list path) :=
  u ← gets self;
  f ← gets fs;
  mret (target_files u f).

Definition backup_file (file_path : path) : M unit :=
  backup_path ← lift (with_suffix file_path (suffix file_path +:+ ".bak"));
  try_except
    (bs ← read_bytes file_path;
     write_bytes backup_path bs;;
     logger DEBUG (CreatedBackup backup_path))
    (fun e =>
       logger ERROR (FailedToCreateBackup file_path e);;
       raise e).

(** The [try] block of [process_file]. *)
Definition process_file_body (file_path : path) : M unit :=
  content ← read_text file_path;
  u ← gets self;
  let original_content := content in
  let content := replace (cps (old_ip u)) (cps (new_ip u)) content in
  let file_replacements :=
    (Z.of_nat (count (cps (new_ip u)) content)
     - Z.of_nat (count (cps (new_ip u)) original_content))%Z in
  (if bool_decide (content ≠ original_content) then
     update_self (add_files_modified 1);;
     update_self (add_replacements_made file_replacements);;
     if dry_run u then
       logger INFO (DryRunWouldModify file_path file_replacements)
     else
       (if backup u then backup_file file_path else mret tt);;
       write_text file_path content;;
       logger INFO (Modified file_path file_replacements)
   else logger DEBUG (NoChangesNeeded file_path));;
  update_self (add_files_processed 1).

Definition process_file (file_path : path) : M unit :=
  try_except (process_file_body file_path)
    (fun e => logger ERROR (ErrorProcessing file_path e)).

(** The [try] block of [run]. *)
Definition run_body : M unit :=
  validate_inputs;;
  u ← gets self;
  logger INFO Starting;;
  logger INFO (DirectoryIs (directory u));;
  logger INFO (FileExtensions (extensions u));;
  logger INFO (Replacing (old_ip u) (new_ip u));;
  logger INFO (BackupEnabled (backup u));;
  logger INFO (DryRunIs (dry_run u));;
  target_files ← find_target_files;
  match target_files with
  | [] => logger WARNING (NoFilesFound (extensions u))
  | _ :: _ =>
      logger INFO (FoundFiles (length target_files));;
      for_each process_file target_files;;
      logger INFO Rule;;
      logger INFO Summary;;
      logger INFO Rule;;
      u ← gets self;
      logger INFO (FilesProcessed (files_processed u));;
      logger INFO (FilesModified (files_modified u));;
      logger INFO (TotalReplacements (replacements_made u));;
      if dry_run u then logger INFO WasDryRun
      else if backup u && (0 <? files_modified u)%Z then logger INFO BackupsCreated
      else mret tt
  end.

(** How [run] ends: it returns, or it leaves through [sys.exit]. *)
Inductive outcome := Returned | SystemExit (code : Z).

Definition run (s : state) : outcome * state :=
  match run_body s with
  | (Ok _, s') => (Returned, s')
  | (Raise e, s') => (SystemExit 1, snd (logger ERROR (ErrorMessage e) s'))
  end.

(** The parsed command line. *)
Record arguments := {
  arg_directory : string;
  arg_old_ip : string;
  arg_new_ip : string;
  arg_extensions : list string;
  arg_no_backup : bool;
  arg_dry_run : bool
}.

Definition exit_code (o : outcome) : Z :=
  match o with
  | Returned => 0
  | SystemExit c => c
  end.

(** [main], from the parsed arguments on: the exit status of the process
    and the state it leaves. *)
Definition main (args : arguments) (f : filesystem) : Z * state :=
  let updater :=
    init (arg_directory args) (arg_old_ip args) (arg_new_ip args)
      (Some (arg_extensions args)) (negb (arg_no_backup args))
      (arg_dry_run args) in
  let '(o, s) := run {| self := updater; fs := f; log := [] |} in
  (exit_code o, s).

(** ** Notions used in the statements *)

Definition backup_path_of (p : path) : path := (parent p, name p +:+ ".bak").

(** A file name is not empty and holds no separator. *)
Definition valid_name (nm : string) : Prop :=
  nm ≠ "" /\ contains "/" nm = false.

(** What a write needs: an existing file must be writable, a new one must
    lie where a file can be created, and data can be written at the
    path. *)
Definition can_write (f : filesystem) (q : path) : bool :=
  match files f !! q with
  | Some fl => writable fl
  | None => negb (bool_decide (q ∈ no_create f))
  end
  && match write_faults f !! q with
     | Some _ => false
     | None => true
     end.

(** Are the two paths names of one file? They are the same path, or links
    to the same inode. *)
Definition same_file (f : filesystem) (p q : path) : bool :=
  bool_decide (p = q)
  || match links f !! p, links f !! q with
     | Some i, Some j => bool_decide (i = j)
     | _, _ => false
     end.

(** Two stores with the same parts but the directory listings and the
    files. *)
Definition same_frame (f f' : filesystem) : Prop :=
  stat f' = stat f /\ unsearchable f' = unsearchable f
  /\ no_create f' = no_create f /\ write_faults f' = write_faults f
  /\ placement f' = placement f.



(** The code points a text file can give: the Unicode scalar values, and
    among them no carriage return once the newlines are translated. *)
Definition scalar (c : N) : bool :=
  ((c <? 55296) || (57344 <=? c) && (c <? 1114112))%N.

Definition clean (c : N) : bool := scalar c && negb (c =? 13)%N.

(** The text [process_file] computes from the text it read, and the number
    it reports for it. *)
Definition rewritten (u : LinkUpdater) (t : text) : text :=
  replace (cps (old_ip u)) (cps (new_ip u)) t.

Definition file_replacements (u : LinkUpdater) (t : text) : Z :=
  (Z.of_nat (count (cps (new_ip u)) (rewritten u t))
   - Z.of_nat (count (cps (new_ip u)) t))%Z.

(** Everything of the object but its three counters. *)
Definition config (u : LinkUpdater)
  : string * string * string * list string * bool * bool :=
  (directory u, old_ip u, new_ip u, extensions u, backup u, dry_run u).

Definition valid (u : LinkUpdater) (f : filesystem) : Prop :=
  is_dir f (directory u) = Ok true
  /\ re_match ip_pattern (old_ip u) = true
  /\ re_match ip_pattern (new_ip u) = true
  /\ old_ip u ≠ new_ip u.

(** Would [process_file] find something to change in this file? *)
Definition would_modify (u : LinkUpdater) (f : filesystem) (p : path) : bool :=
  match read_file f p with
  | Ok bs => bool_decide (rewritten u (decode bs) ≠ decode bs)
  | Raise _ => false
  end.

(** The state once [run] has logged its parameters. *)
Definition announced (s : state) : state :=
  {| self := self s; fs := fs s;
     log := log s ++ [(INFO, Starting);
                      (INFO, DirectoryIs (directory (self s)));
                      (INFO, FileExtensions (extensions (self s)));
                      (INFO, Replacing (old_ip (self s)) (new_ip (self s)));
                      (INFO, BackupEnabled (backup (self s)));
                      (INFO, DryRunIs (dry_run (self s)))] |}.

(** The object [main] builds from the command line. *)
Definition updater_of (args : arguments) : LinkUpdater :=
  init (arg_directory args) (arg_old_ip args) (arg_new_ip args)
    (Some (arg_extensions args)) (negb (arg_no_backup args))
    (arg_dry_run args).

(** The number [process_file] reports for a file. *)
Definition reported (u : LinkUpdater) (f : filesystem) (p : path) : Z :=
  match read_file f p with
  | Ok bs => file_replacements u (decode bs)
  | Raise _ => 0%Z
  end.

(** The program run again on the store its first run left. *)
Definition rerun (args : arguments) (f : filesystem) : Z * state :=
  main args (fs (snd (main args f))).

(** The lines [run] logs once the files are processed. *)
Definition summary (u : LinkUpdater) : list (level * message) :=
  [(INFO, Rule); (INFO, Summary); (INFO, Rule);
   (INFO, FilesProcessed (files_processed u));
   (INFO, FilesModified (files_modified u));
   (INFO, TotalReplacements (replacements_made u))]
  ++ (if dry_run u then [(INFO, WasDryRun)]
      else if backup u && (0 <? files_modified u)%Z
           then [(INFO, BackupsCreated)]
           else []).

(** Is this the line [process_file] logs for a file it gave up? *)
Definition is_processing_error (line : level * message) : bool :=
  match line with
  | (ERROR, ErrorProcessing _ _) => true
  | _ => false
  end.

(** ** The shape of IP strings *)

Fixpoint all_digits (g : string) : bool :=
  match g with
  | EmptyString => true
  | String a g' => in_range "0" "9" a && all_digits g'
  end.

Definition group_shape (g : string) : bool :=
  Nat.leb 1 (String.length g) && Nat.leb (String.length g) 3 && all_digits g.

(** The shape the specification gives for an IP string: four groups of one
    to three digits, separated by dots. *)
Definition spec_ip_shape (s : string) : bool :=
  match split_on "." s with
  | [a; b; c; d] => group_shape a && group_shape b && group_shape c && group_shape d
  | _ => false
  end.

Definition newline : string := String "010" EmptyString.

(** What [validate_inputs] lets through as an IP string. *)
Definition accepted (s : string) : Prop :=
  spec_ip_shape s = true
  \/ exists t, s = t +:+ newline /\ spec_ip_shape t = true.

(** ** Concrete stores *)

Module Scenario.

Definition plain (bs : list byte) : file :=
  {| data := bs; readable := true; writable := true |}.

Definition a_html : path := ("site", "a.html").
Definition b_txt : path := ("site", "b.txt").

(** The directory of the specification's scenario: [a.html] and [b.txt],
    two files with the same content. *)
Definition store (fl : file) : filesystem :=
  {| stat := {[ "site" := Directory ]};
     unsearchable := ∅;
     listing := {[ "site" := [("site", [], ["a.html"; "b.txt"])] ]};
     links := {[ a_html := 1%positive; b_txt := 2%positive ]};
     inodes := {[ 1%positive := fl; 2%positive := fl ]};
     no_create := ∅;
     write_faults := ∅;
     placement := ∅ |}.

Definition original : list byte :=
  list_byte_of_string "Server at 10.0.0.1 ready".

Definition site : filesystem := store (plain original).

Definition begin (u : LinkUpdater) (f : filesystem) : state :=
  {| self := u; fs := f; log := [] |}.

Definition updater : LinkUpdater :=
  init "site" "10.0.0.1" "10.0.0.2" (Some [".html"]) true false.

Definition dry_updater : LinkUpdater :=
  init "site" "10.0.0.1" "10.0.0.2" (Some [".html"]) true true.

(** The same directory with files that may be read but not written. *)
Definition locked : filesystem :=
  store {| data := original; readable := true; writable := false |}.

(** The same directory with files that may not be read. *)
Definition unreadable : filesystem :=
  store {| data := original; readable := false; writable := true |}.

(** A file whose last byte is no UTF-8. *)
Definition damaged : filesystem := store (plain (original ++ [xff])).

(** The same directory, in which no backup can be created. *)
Definition sealed : filesystem :=
  {| stat := stat site; unsearchable := ∅; listing := listing site;
     links := links site; inodes := inodes site;
     no_create := {[ ("site", "a.html.bak"); ("site", "b.txt.bak") ]};
     write_faults := ∅; placement := ∅ |}.

(** The same directory on a device that takes five bytes for [a.html]. *)
Definition faulty : filesystem :=
  {| stat := stat site; unsearchable := ∅; listing := listing site;
     links := links site; inodes := inodes site;
     no_create := ∅; write_faults := {[ a_html := 5 ]}; placement := ∅ |}.


(** The same directory, where [a.html.bak] exists and is a link to
    [a.html]. *)
Definition backup_linked : filesystem :=
  {| stat := stat site; unsearchable := ∅;
     listing := {[ "site" := [("site", [], ["a.html"; "a.html.bak"; "b.txt"])] ]};
     links := {[ a_html := 1%positive; ("site", "a.html.bak") := 1%positive;
                 b_txt := 2%positive ]};
     inodes := inodes site;
     no_create := ∅; write_faults := ∅; placement := ∅ |}.

(** The same, on a device that takes five bytes for [a.html.bak]. *)
Definition backup_linked_faulty : filesystem :=
  {| stat := stat site; unsearchable := ∅; listing := listing backup_linked;
     links := links backup_linked; inodes := inodes site;
     no_create := ∅; write_faults := {[ ("site", "a.html.bak") := 5 ]};
     placement := ∅ |}.


(** The same directory below a directory that may not be searched. *)
Definition hidden : filesystem :=
  {| stat := stat site; unsearchable := {[ "site" ]}; listing := listing site;
     links := links site; inodes := inodes site;
     no_create := ∅; write_faults := ∅; placement := ∅ |}.

End Scenario.

(** ** Tactics for the methods *)

Ltac monad_unfold :=
  unfold process_file, process_file_body, backup_file, try_except, read_text,
    write_text, read_bytes, write_bytes, logger, update_self, gets, raise, lift,
    mbind, M_bind, mret, M_ret in *.

(** Simplification along the branches of [process_file], using what is
    known of the file operations. *)
Ltac norm :=
  repeat first
    [ progress simpl
    | match goal with
      | H : read_file ?f ?p = _ |- context [read_file ?f ?p] => rewrite H
      | H : write_file ?f ?p ?b = _ |- context [write_file ?f ?p ?b] => rewrite H
      | H : with_suffix ?p ?x = _ |- context [with_suffix ?p ?x] => rewrite H
      | H : dry_run ?u = _ |- context [dry_run ?u] => rewrite H
      | H : backup ?u = _ |- context [backup ?u] => rewrite H
      | H : bool_decide ?P = _ |- context [bool_decide ?P] => rewrite H
      end ].

(** Case analysis on the next file operation or flag the goal waits for. *)
Ltac branch :=
  match goal with
  | |- context [read_file ?f ?p] =>
      let H := fresh "Hread" in destruct (read_file f p) eqn:H
  | |- context [bool_decide ?P] =>
      let H := fresh "Hchg" in destruct (bool_decide P) eqn:H
  | |- context [dry_run ?u] =>
      let H := fresh "Hdry" in destruct (dry_run u) eqn:H
  | |- context [backup ?u] =>
      let H := fresh "Hbak" in destruct (backup u) eqn:H
  | |- context [with_suffix ?p ?x] =>
      let H := fresh "Hsfx" in destruct (with_suffix p x) eqn:H
  | |- context [write_file ?f ?p ?b] =>
      let H := fresh "Hwrite" in
      let f' := fresh "f" in
      destruct (write_file f p b) as [f' [?|]] eqn:H
  end.

Ltac branches := monad_unfold; norm; repeat (branch; norm).

(** Linear arithmetic with division by constants. *)
Ltac nlia := zify; Z.to_euclidean_division_equations; lia.

(** Turning the tests of the codec into inequalities. *)
Ltac tests :=
  unfold second_of3, second_of4, is_cont, scalar, clean in *;
  repeat match goal with
         | H : (_ && _) = true |- _ => apply andb_true_iff in H as [? ?]
         | H : (_ || _) = false |- _ => apply orb_false_iff in H as [? ?]
         | H : negb _ = true |- _ => apply negb_true_iff in H
         | H : negb _ = false |- _ => apply negb_false_iff in H
         | H : (if ?b then _ else _) = _ |- _ => destruct b eqn:?
         | H : (_ <? _)%N = true |- _ => apply N.ltb_lt in H
         | H : (_ <? _)%N = false |- _ => apply N.ltb_ge in H
         | H : (_ <=? _)%N = true |- _ => apply N.leb_le in H
         | H : (_ <=? _)%N = false |- _ => apply N.leb_gt in H
         | H : (_ =? _)%N = true |- _ => apply N.eqb_eq in H
         | H : (_ =? _)%N = false |- _ => apply N.eqb_neq in H
         end.

(** * Properties *)

(** ** The library functions on samples *)

Example replace_spec_scenario :
  replace (cps "10.0.0.1") (cps "10.0.0.2") (cps "Server at 10.0.0.1 ready")
  = cps "Server at 10.0.0.2 ready".
Proof. reflexivity. Qed.

Example replace_empty_old : replace [] (cps "-") (cps "abc") = cps "-a-b-c-".
Proof. reflexivity. Qed.

Example count_overlap : count (cps "aa") (cps "aaaaa") = 2.
Proof. reflexivity. Qed.

Example count_empty_sub : count [] (cps "abc") = 4.
Proof. reflexivity. Qed.

Example decode_drops_invalid :
  decode [x41; xff; xe2; x82; x42; xc3; xa9; x0d; x0a] = [65; 66; 233; 10]%N.
Proof. reflexivity. Qed.

Example encode_decode_sample :
  decode (encode [65; 233; 8364; 128512; 10]%N) = [65; 233; 8364; 128512; 10]%N.
Proof. reflexivity. Qed.

Example ip_ok_plain : re_match ip_pattern "10.100.100.114" = true.
Proof. reflexivity. Qed.

Example ip_ok_large_octet : re_match ip_pattern "999.0.0.1" = true.
Proof. reflexivity. Qed.

Example ip_bad_three_groups : re_match ip_pattern "10.0.1" = false.
Proof. reflexivity. Qed.

Example ip_bad_four_digits : re_match ip_pattern "10.0.0.1234" = false.
Proof. reflexivity. Qed.

Example path_samples :
  map Path ["nowhere/"; "a//b/./c/"; "/"; "//"; "//a"; "///a"; ""; ".";
            "./a"; "a/.."]
  = ["nowhere"; "a/b/c"; "/"; "//"; "//a"; "/a"; "."; "."; "a"; "a/.."].
Proof. reflexivity. Qed.

Example suffix_html : suffix_of_name "a.html" = ".html".
Proof. reflexivity. Qed.

Example suffix_hidden : suffix_of_name ".bashrc" = "".
Proof. reflexivity. Qed.

Example suffix_last : suffix_of_name "x.tar.gz" = ".gz".
Proof. reflexivity. Qed.

Example with_suffix_html :
  with_suffix ("d", "a.html") (suffix ("d", "a.html") +:+ ".bak")
  = Ok ("d", "a.html.bak").
Proof. reflexivity. Qed.

(** ** Scanning texts *)

Lemma starts_with_app (p s : text) :
  starts_with p s = true <-> s = p ++ drop (length p) s.
Proof.
  revert s. induction p as [|a p IH]; intros s; simpl.
  - rewrite drop_0. tauto.
  - destruct s as [|b s]; simpl; [split; discriminate|].
    rewrite andb_true_iff, N.eqb_eq, IH. split.
    + intros [-> Hs]. by f_equal.
    + intros Hs. injection Hs as -> Hs. done.
Qed.

Lemma starts_with_nil_false (p : text) : p ≠ [] -> starts_with p [] = false.
Proof. by destruct p. Qed.

Section scan.
Variables old new : text.
Hypothesis old_nonempty : old ≠ [].

Lemma length_old : exists k, length old = S k.
Proof using old_nonempty.
  destruct (length old) as [|k] eqn:H; [|by exists k].
  by apply length_zero_iff_nil in H.
Qed.

Lemma replace_scan_drop (k : nat) (s : text) :
  replace_scan old new k s = replace old new (drop k s).
Proof using old_nonempty.
  unfold replace. revert k.
  induction s as [|c s IH]; intros [|k]; simpl; try done.
  by rewrite starts_with_nil_false.
Qed.

Lemma count_scan_drop (k : nat) (s : text) :
  count_scan old k s = count old (drop k s).
Proof using old_nonempty.
  unfold count. revert k.
  induction s as [|c s IH]; intros [|k]; simpl; try done.
  by rewrite starts_with_nil_false.
Qed.

Lemma replace_nil : replace old new [] = [].
Proof using old_nonempty.
  unfold replace; simpl. by rewrite starts_with_nil_false.
Qed.

Lemma count_nil : count old [] = 0.
Proof using old_nonempty.
  unfold count; simpl. by rewrite starts_with_nil_false.
Qed.

Lemma replace_hit (s : text) :
  starts_with old s = true ->
  replace old new s = new ++ replace old new (drop (length old) s).
Proof using old_nonempty.
  intros H. destruct s as [|c s]; [by rewrite starts_with_nil_false in H|].
  unfold replace at 1. cbn [replace_scan]. rewrite H.
  destruct length_old as [k ->]. by rewrite replace_scan_drop.
Qed.

Lemma count_hit (s : text) :
  starts_with old s = true ->
  count old s = S (count old (drop (length old) s)).
Proof using old_nonempty.
  intros H. destruct s as [|c s]; [by rewrite starts_with_nil_false in H|].
  unfold count at 1. cbn [count_scan]. rewrite H.
  destruct length_old as [k ->]. by rewrite count_scan_drop.
Qed.

Lemma replace_miss (c : N) (s : text) :
  starts_with old (c :: s) = false ->
  replace old new (c :: s) = c :: replace old new s.
Proof using Type.
  intros H. unfold replace. cbn [replace_scan]. by rewrite H.
Qed.

Lemma count_miss (c : N) (s : text) :
  starts_with old (c :: s) = false ->
  count old (c :: s) = count old s.
Proof using Type.
  intros H. unfold count. cbn [count_scan]. by rewrite H.
Qed.

(** Induction along the scan: at a match the scan jumps past it,
    otherwise it moves on by one character. *)
Lemma scan_ind (P : text -> Prop) :
  P [] ->
  (forall s, starts_with old s = true -> P (drop (length old) s) -> P s) ->
  (forall c s, starts_with old (c :: s) = false -> P s -> P (c :: s)) ->
  forall s, P s.
Proof using old_nonempty.
  intros Hnil Hhit Hmiss s.
  remember (length s) as n eqn:Hn. revert s Hn.
  induction n as [n IH] using lt_wf_ind. intros s ->.
  destruct s as [|c s]; [done|].
  destruct (starts_with old (c :: s)) eqn:Hsw.
  - apply Hhit; [done|]. eapply IH; [|done].
    rewrite length_drop. destruct length_old as [k ->]. simpl. lia.
  - apply Hmiss; [done|]. eapply IH; [|done]. simpl. lia.
Qed.

(** Where nothing is found nothing changes. *)
Lemma replace_absent (s : text) : count old s = 0 -> replace old new s = s.
Proof using old_nonempty.
  induction s as [|s Hsw IH|c s Hsw IH] using scan_ind.
  - intros _. apply replace_nil.
  - rewrite (count_hit _ Hsw). discriminate.
  - rewrite (count_miss _ _ Hsw), (replace_miss _ _ Hsw).
    intros H. by rewrite IH.
Qed.

(** Each replacement changes the length by the same amount. *)
Lemma replace_length (s : text) :
  (Z.of_nat (length (replace old new s))
   = Z.of_nat (length s)
     + Z.of_nat (count old s) * (Z.of_nat (length new) - Z.of_nat (length old)))%Z.
Proof using old_nonempty.
  induction s as [|s Hsw IH|c s Hsw IH] using scan_ind.
  - rewrite replace_nil, count_nil. simpl. lia.
  - rewrite (count_hit _ Hsw), (replace_hit _ Hsw), length_app.
    apply starts_with_app in Hsw.
    assert (length s = length old + length (drop (length old) s)) as Hlen.
    { rewrite Hsw at 1. by rewrite length_app. }
    lia.
  - rewrite (count_miss _ _ Hsw), (replace_miss _ _ Hsw). simpl length. lia.
Qed.

(** Where something is found and [new] differs from [old], the text
    changes. *)
Lemma replace_present (s : text) :
  old ≠ new -> count old s ≠ 0 -> replace old new s ≠ s.
Proof using old_nonempty.
  intros Hne.
  destruct (decide (length new = length old)) as [Hlen|Hlen].
  - induction s as [|s Hsw IH|c s Hsw IH] using scan_ind.
    + by rewrite count_nil.
    + intros _. rewrite (replace_hit _ Hsw).
      apply starts_with_app in Hsw. rewrite Hsw at 2.
      intros Heq. apply app_inj_1 in Heq as [Heq _]; [|done].
      by apply Hne.
    + rewrite (count_miss _ _ Hsw), (replace_miss _ _ Hsw).
      intros Hc Heq. injection Heq as Heq. by apply IH.
  - intros Hc Heq. pose proof (replace_length s) as Hl.
    rewrite Heq in Hl. nia.
Qed.

Lemma replace_changes_iff (s : text) :
  old ≠ new -> (replace old new s ≠ s <-> count old s ≠ 0).
Proof using old_nonempty.
  intros Hne. split.
  - intros Hr Hc. by apply Hr, replace_absent.
  - by apply replace_present.
Qed.
End scan.

Lemma cps_inj (s1 s2 : string) : cps s1 = cps s2 -> s1 = s2.
Proof.
  revert s2. induction s1 as [|a s1 IH]; intros [|b s2]; simpl; try done.
  unfold cps; simpl. intros H. injection H as Hab H.
  apply (f_equal ascii_of_N) in Hab. rewrite !ascii_N_embedding in Hab.
  subst b. f_equal. by apply IH.
Qed.

Lemma cps_nonempty (s : string) : s ≠ "" -> cps s ≠ [].
Proof. by destruct s. Qed.

(** ** Paths *)

Lemma sapp_cons (x : ascii) (a b : string) :
  String x a +:+ b = String x (a +:+ b).
Proof. reflexivity. Qed.

Lemma sapp_empty_l (b : string) : "" +:+ b = b.
Proof. reflexivity. Qed.

Lemma sapp_assoc (a b c : string) : (a +:+ b) +:+ c = a +:+ (b +:+ c).
Proof.
  induction a as [|x a IH]; [done|]. by rewrite !sapp_cons, IH.
Qed.

Lemma sapp_length (a b : string) :
  String.length (a +:+ b) = String.length a + String.length b.
Proof.
  induction a as [|x a IH]; [done|]. rewrite sapp_cons. simpl. by rewrite IH.
Qed.

Lemma sapp_empty_r (a : string) : a +:+ "" = a.
Proof.
  induction a as [|x a IH]; [done|]. by rewrite sapp_cons, IH.
Qed.

Lemma stake_sdrop (i : nat) (s : string) : stake i s +:+ sdrop i s = s.
Proof.
  revert s. induction i as [|i IH]; intros [|a s]; simpl; try done.
  by rewrite sapp_cons, IH.
Qed.

Lemma sdrop_length (i : nat) (s : string) :
  String.length (sdrop i s) = String.length s - i.
Proof. revert s. induction i as [|i IH]; intros [|a s]; simpl; auto. Qed.

Lemma stake_all (s : string) : stake (String.length s) s = s.
Proof. induction s as [|a s IH]; simpl; [done|]. by rewrite IH. Qed.

Lemma stake_before_sdrop (i : nat) (s : string) :
  stake (String.length s - String.length (sdrop i s)) s +:+ sdrop i s = s.
Proof.
  destruct (Nat.le_gt_cases i (String.length s)) as [Hle|Hgt].
  - rewrite sdrop_length.
    replace (String.length s - (String.length s - i)) with i by lia.
    apply stake_sdrop.
  - assert (sdrop i s = "") as ->.
    { pose proof (sdrop_length i s) as Hl.
      destruct (sdrop i s); [done|]. simpl in Hl. lia. }
    simpl String.length. rewrite Nat.sub_0_r, stake_all. apply sapp_empty_r.
Qed.

Lemma contains_sapp (c : ascii) (a b : string) :
  contains c (a +:+ b) = contains c a || contains c b.
Proof.
  induction a as [|x a IH]; [done|]. rewrite sapp_cons. simpl.
  by rewrite IH, orb_assoc.
Qed.

Lemma contains_sdrop (c : ascii) (i : nat) (s : string) :
  contains c s = false -> contains c (sdrop i s) = false.
Proof.
  revert s. induction i as [|i IH]; intros [|a s]; simpl; try done.
  intros H. apply orb_false_iff in H as [_ H]. by apply IH.
Qed.

Lemma rfind_sdrop (c : ascii) (s : string) (i : nat) :
  rfind c s = Some i -> exists s', sdrop i s = String c s'.
Proof.
  revert i. induction s as [|a s IH]; intros i; simpl; [done|].
  destruct (rfind c s) as [j|] eqn:Hr.
  - intros [= <-]. simpl. by apply IH.
  - destruct (Ascii.eqb_spec a c) as [->|]; [|done].
    intros [= <-]. simpl. by eexists.
Qed.

(** The suffix of a name is empty or starts with a dot, and it is the end
    of the name. *)
Lemma suffix_of_name_cases (nm : string) :
  suffix_of_name nm = ""
  \/ exists i s', suffix_of_name nm = sdrop i nm /\ sdrop i nm = String "." s'.
Proof.
  unfold suffix_of_name. destruct (rfind "." nm) as [i|] eqn:Hr; [|by left].
  destruct (_ && _); [|by left].
  right. apply rfind_sdrop in Hr as [s' Hs']. by exists i, s'.
Qed.

(** Whenever [with_suffix] accepts the suffix built by [backup_file], the
    backup path is the file's path with [.bak] appended. *)
Lemma with_suffix_bak (p bp : path) :
  with_suffix p (suffix p +:+ ".bak") = Ok bp -> bp = backup_path_of p.
Proof.
  unfold with_suffix, backup_path_of, suffix.
  destruct (contains _ _); [done|].
  destruct (_ || _); [done|].
  destruct (String.eqb (name p) ""); [done|].
  destruct (suffix_of_name_cases (name p)) as [->|(i & s' & -> & Hs')].
  - rewrite sapp_empty_l. simpl. by intros [= <-].
  - rewrite Hs' at 1. simpl. intros [= <-].
    by rewrite <- sapp_assoc, stake_before_sdrop.
Qed.

Lemma with_suffix_bak_ok (p : path) :
  valid_name (name p) ->
  with_suffix p (suffix p +:+ ".bak") = Ok (backup_path_of p).
Proof.
  intros [Hne Hsep].
  destruct (with_suffix p (suffix p +:+ ".bak")) as [bp|e] eqn:Hw.
  { by rewrite (with_suffix_bak _ _ Hw). }
  exfalso. revert Hw. unfold with_suffix, suffix.
  assert (contains "/" (suffix_of_name (name p) +:+ ".bak") = false) as ->.
  { rewrite contains_sapp.
    destruct (suffix_of_name_cases (name p)) as [->|(i & s' & -> & _)]; [done|].
    by rewrite contains_sdrop. }
  assert ((negb (String.eqb (suffix_of_name (name p) +:+ ".bak") "")
           && negb (startswith_dot (suffix_of_name (name p) +:+ ".bak"))
           || String.eqb (suffix_of_name (name p) +:+ ".bak") ".") = false) as ->.
  { destruct (suffix_of_name_cases (name p)) as [->|(i & s' & -> & ->)]; [done|].
    rewrite sapp_cons. simpl. destruct s'; done. }
  apply String.eqb_neq in Hne. rewrite Hne.
  destruct (String.eqb (suffix_of_name (name p)) ""); intros; discriminate.
Qed.

Lemma backup_path_neq (p : path) : backup_path_of p ≠ p.
Proof.
  destruct p as [d nm]. unfold backup_path_of; simpl. intros [= H].
  apply (f_equal String.length) in H. rewrite sapp_length in H. simpl in H. lia.
Qed.

(** ** The file store under writes *)

Lemma files_lookup (f : filesystem) (p : path) :
  files f !! p = links f !! p ≫= fun i => inodes f !! i.
Proof. unfold files. by rewrite lookup_omap. Qed.

Lemma fresh_inode_spec (f : filesystem) :
  inodes f !! fresh_inode f = None
  /\ forall q, links f !! q ≠ Some (fresh_inode f).
Proof.
  pose proof (is_fresh (dom (inodes f) ∪ map_img (links f) : gset inode)) as H.
  fold (fresh_inode f) in H. apply not_elem_of_union in H as [Hi Hl]. split.
  - by apply not_elem_of_dom.
  - intros q Hq. apply Hl. apply elem_of_map_img. by exists q.
Qed.

Lemma opened_spec (f f' : filesystem) (p : path) (i : inode) :
  opened f p = Ok (i, f') ->
  same_frame f f'
  /\ links f' = <[p := i]> (links f)
  /\ (links f !! p = Some i
          \/ links f !! p = None /\ forall q, links f !! q ≠ Some i)
  /\ exists fl, inodes f' = <[i := fl]> (inodes f)
                /\ data fl = [] /\ writable fl = true
                /\ (forall fl0, files f !! p = Some fl0 -> readable fl = readable fl0).
Proof.
  unfold opened. rewrite files_lookup.
  destruct (links f !! p) as [j|] eqn:Hl; simpl.
  - destruct (inodes f !! j) as [fl0|] eqn:Hi.
    + destruct (writable fl0); [|done]. intros [= <- <-].
      repeat split; try done.
      * simpl. by rewrite insert_id.
      * by left.
      * eexists. repeat split; try done. by intros ? [= <-].
    + destruct (bool_decide _); [done|]. intros [= <- <-].
      repeat split; try done.
      * simpl. by rewrite insert_id.
      * by left.
      * eexists. repeat split; done.
  - destruct (bool_decide _); [done|]. intros [= <- <-].
    destruct (fresh_inode_spec f) as [Hi Hq].
    repeat split; try done.
    + by right.
    + eexists. repeat split; done.
Qed.

Lemma opened_refused (f : filesystem) (p : path) (e : exn) :
  opened f p = Raise e -> e = PermissionError p.
Proof.
  unfold opened. destruct (links f !! p) as [j|].
  - destruct (inodes f !! j) as [fl0|].
    + destruct (writable fl0); [done|]. by intros [= <-].
    + destruct (bool_decide _); [|done]. by intros [= <-].
  - destruct (bool_decide _); [|done]. by intros [= <-].
Qed.

(** What a write does: it is refused and the store is as it was, or the
    file named by the path holds the data, or the part of them written
    before the failure. *)
Lemma write_file_spec (f f' : filesystem) (p : path) (bs : list byte)
    (r : option exn) :
  write_file f p bs = (f', r) ->
  (r = Some (PermissionError p) /\ f' = f)
  \/ exists i fl,
       same_frame f f'
       /\ links f' = <[p := i]> (links f)
       /\ (links f !! p = Some i
          \/ links f !! p = None /\ forall q, links f !! q ≠ Some i)
       /\ inodes f' = <[i := fl]> (inodes f)
       /\ writable fl = true
       /\ (forall fl0, files f !! p = Some fl0 -> readable fl = readable fl0)
       /\ (r = None /\ write_faults f !! p = None /\ data fl = bs
           \/ exists n, r = Some (OSError p) /\ write_faults f !! p = Some n
                        /\ data fl = take n bs).
Proof.
  unfold write_file. destruct (opened f p) as [[i f1]|e] eqn:Ho.
  - intros Hw. right.
    destruct (opened_spec _ _ _ _ Ho) as (Hfr & Hl & Hi & fl & Hn & Hd & Hwr & Hrd).
    assert (forall cs, exists fl',
              set_data i cs f1
              = set_inode i fl' f1
              /\ data fl' = cs /\ writable fl' = true
              /\ readable fl' = readable fl) as Hset.
    { intros cs. unfold set_data. rewrite Hn, lookup_insert_eq.
      eexists. split; [reflexivity|]. by rewrite Hwr. }
    destruct (write_faults f !! p) as [n|] eqn:Hf; injection Hw as <- <-.
    + destruct (Hset (take n bs)) as (fl' & -> & Hd' & Hw' & Hr').
      exists i, fl'. repeat split; try done; try apply Hfr.
      * simpl. by rewrite Hn, insert_insert_eq.
      * intros fl0 H0. rewrite Hr'. by apply Hrd.
      * right. by exists n.
    + destruct (Hset bs) as (fl' & -> & Hd' & Hw' & Hr').
      exists i, fl'. repeat split; try done; try apply Hfr.
      * simpl. by rewrite Hn, insert_insert_eq.
      * intros fl0 H0. rewrite Hr'. by apply Hrd.
      * by left.
  - intros [= <- <-]. left. by rewrite (opened_refused _ _ _ Ho).
Qed.

Lemma write_file_frame (f f' : filesystem) (q : path) (bs : list byte)
    (r : option exn) :
  write_file f q bs = (f', r) -> same_frame f f'.
Proof.
  intros [[_ ->]|(i & fl & Hfr & _)]%write_file_spec; [|done].
  by repeat split.
Qed.

Lemma same_file_sym (f : filesystem) (p q : path) :
  same_file f p q = same_file f q p.
Proof.
  unfold same_file. f_equal.
  - apply bool_decide_ext. split; by intros ->.
  - destruct (links f !! p), (links f !! q); try done.
    apply bool_decide_ext. split; by intros ->.
Qed.

Lemma same_file_false (f : filesystem) (p q : path) :
  same_file f p q = false
  <-> p ≠ q /\ forall i, links f !! p = Some i -> links f !! q ≠ Some i.
Proof.
  unfold same_file. rewrite orb_false_iff, bool_decide_eq_false. split.
  - intros [Hne H]. split; [done|]. intros i Hp Hq. rewrite Hp, Hq in H.
    by apply bool_decide_eq_false in H.
  - intros [Hne H]. split; [done|].
    destruct (links f !! p) as [i|]; [|done].
    destruct (links f !! q) as [j|]; [|done].
    apply bool_decide_eq_false. intros ->. by apply (H j).
Qed.

(** A write leaves alone the files that the path does not name. *)
Lemma write_file_other (f f' : filesystem) (q p : path) (bs : list byte)
    (r : option exn) :
  write_file f q bs = (f', r) -> same_file f p q = false ->
  links f' !! p = links f !! p /\ files f' !! p = files f !! p.
Proof.
  intros [[_ ->]|(i & fl & _ & Hl & Hi & Hn & _)]%write_file_spec
    [Hne Hp]%same_file_false; [done|].
  rewrite !files_lookup, Hl, Hn, lookup_insert_ne by done. split; [done|].
  destruct (links f !! p) as [j|] eqn:Hj; [simpl|done].
  rewrite lookup_insert_ne; [done|]. intros <-.
  destruct Hi as [Hi|[_ Hi]]; [by apply (Hp i)|by apply (Hi p)].
Qed.

(** Nor does it make them the same file as another. *)
Lemma write_file_apart (f f' : filesystem) (q p x : path) (bs : list byte)
    (r : option exn) :
  write_file f q bs = (f', r) -> same_file f p q = false ->
  same_file f p x = false -> same_file f' p x = false.
Proof.
  intros Hw Hq Hx.
  destruct (write_file_other _ _ _ _ _ _ Hw Hq) as [Hlp _].
  apply same_file_false in Hx as [Hne Hx]. apply same_file_false.
  split; [done|]. intros j. rewrite Hlp. intros Hj.
  apply same_file_false in Hq as [Hpq Hq].
  destruct (write_file_spec _ _ _ _ _ Hw)
    as [[_ ->]|(i & fl & _ & Hl & Hi & _)]; [by apply Hx|].
  rewrite Hl. destruct (decide (x = q)) as [->|Hxq].
  - rewrite lookup_insert_eq. intros [= <-].
    destruct Hi as [Hi|[_ Hi]]; [by apply (Hq i)|by apply (Hi p)].
  - rewrite lookup_insert_ne by done. by apply Hx.
Qed.

Lemma write_file_same (f f' : filesystem) (q : path) (bs : list byte) :
  write_file f q bs = (f', None) ->
  exists fl, files f' !! q = Some fl /\ data fl = bs /\ writable fl = true
             /\ forall fl0, files f !! q = Some fl0 -> readable fl = readable fl0.
Proof.
  intros [[? _]|(i & fl & _ & Hl & _ & Hn & Hw & Hr & Hd)]%write_file_spec;
    [done|].
  destruct Hd as [(_ & _ & Hd)|(n & ? & _)]; [|done].
  exists fl. rewrite files_lookup, Hl, Hn, lookup_insert_eq. simpl.
  by rewrite lookup_insert_eq.
Qed.

(** A write that raises was refused at the opening, and the store is as it
    was, or failed after it, and the file holds what was written before
    the failure. *)
Lemma write_file_raised (f f' : filesystem) (q : path) (bs : list byte)
    (e : exn) :
  write_file f q bs = (f', Some e) ->
  (e = PermissionError q /\ f' = f)
  \/ (e = OSError q
      /\ exists fl n, files f' !! q = Some fl /\ data fl = take n bs).
Proof.
  intros [[[= ->] ->]|(i & fl & _ & Hl & _ & Hn & _ & _ & Hd)]%write_file_spec;
    [by left|].
  destruct Hd as [(? & _)|(n & [= ->] & _ & Hd)]; [done|]. right.
  split; [done|]. exists fl, n.
  rewrite files_lookup, Hl, Hn, lookup_insert_eq. simpl.
  by rewrite lookup_insert_eq.
Qed.

Lemma write_file_ok (f : filesystem) (q : path) (bs : list byte) :
  can_write f q = true -> exists f', write_file f q bs = (f', None).
Proof.
  unfold can_write, write_file, opened. rewrite files_lookup.
  intros [Hperm Hfault]%andb_true_iff.
  destruct (write_faults f !! q); [done|].
  destruct (links f !! q) as [i|]; simpl in Hperm.
  - destruct (inodes f !! i) as [fl|].
    + rewrite Hperm. by eexists.
    + apply negb_true_iff in Hperm. rewrite Hperm. by eexists.
  - apply negb_true_iff in Hperm. rewrite Hperm. by eexists.
Qed.

Lemma can_write_frame (f f' : filesystem) (q p : path) (bs : list byte)
    (r : option exn) :
  write_file f q bs = (f', r) -> same_file f p q = false ->
  can_write f' p = can_write f p.
Proof.
  intros Hw Hne. unfold can_write.
  destruct (write_file_other _ _ _ _ _ _ Hw Hne) as [_ ->].
  by destruct (write_file_frame _ _ _ _ _ Hw) as (_ & _ & -> & -> & _).
Qed.

(** ** One file *)

Lemma process_file_returns (p : path) (s : state) :
  fst (process_file p s) = Ok tt.
Proof. branches; done. Qed.

Lemma process_file_config (p : path) (s : state) :
  config (self (snd (process_file p s))) = config (self s).
Proof. branches; done. Qed.

Lemma process_file_read_error (p : path) (s : state) (e : exn) :
  read_file (fs s) p = Raise e ->
  process_file p s
  = (Ok tt, {| self := self s; fs := fs s;
               log := log s ++ [(ERROR, ErrorProcessing p e)] |}).
Proof. intros H. branches; done. Qed.

Lemma process_file_unchanged (p : path) (s : state) (bs : list byte) :
  read_file (fs s) p = Ok bs ->
  rewritten (self s) (decode bs) = decode bs ->
  process_file p s
  = (Ok tt, {| self := add_files_processed 1 (self s); fs := fs s;
               log := log s ++ [(DEBUG, NoChangesNeeded p)] |}).
Proof.
  intros H Hsame. unfold rewritten in Hsame.
  assert (bool_decide (replace (cps (old_ip (self s))) (cps (new_ip (self s)))
                         (decode bs) ≠ decode bs) = false) as Hchg.
  { by apply bool_decide_eq_false_2; intros []. }
  branches; done.
Qed.

Lemma process_file_dry_run (p : path) (s : state) (bs : list byte) :
  dry_run (self s) = true ->
  read_file (fs s) p = Ok bs ->
  rewritten (self s) (decode bs) ≠ decode bs ->
  process_file p s
  = (Ok tt,
     {| self := add_files_processed 1
                  (add_replacements_made (file_replacements (self s) (decode bs))
                     (add_files_modified 1 (self s)));
        fs := fs s;
        log := log s ++ [(INFO, DryRunWouldModify p
                                  (file_replacements (self s) (decode bs)))] |}).
Proof.
  intros Hdry H Hdiff. unfold rewritten in Hdiff.
  pose proof (bool_decide_eq_true_2 _ Hdiff) as Hchg.
  branches; done.
Qed.

Lemma process_file_dry_run_fs (p : path) (s : state) :
  dry_run (self s) = true -> fs (snd (process_file p s)) = fs s.
Proof. intros Hdry. branches; done. Qed.

Lemma for_each_cons (p : path) (l : list path) (s : state) :
  for_each process_file (p :: l) s
  = for_each process_file l (snd (process_file p s)).
Proof.
  simpl. unfold mbind, M_bind.
  pose proof (process_file_returns p s) as H.
  destruct (process_file p s) as [r s']. simpl in *. by rewrite H.
Qed.

Lemma process_file_body_raises (p : path) (s s1 : state) (e : exn) :
  process_file_body p s = (Raise e, s1) ->
  files_processed (self s1) = files_processed (self s).
Proof. branches; by intros [= <- <-]. Qed.

(** ** Properties of [process_file] *)

(** C7. For a file that is read and whose text changes, the amount added to
    [replacements_made] is the number of occurrences of the new IP in the
    rewritten text minus their number in the text as read; the difference
    is taken in the integers. *)
Theorem process_file_replacement_count (p : path) (s : state) (bs : list byte) :
  read_file (fs s) p = Ok bs ->
  rewritten (self s) (decode bs) ≠ decode bs ->
  replacements_made (self (snd (process_file p s)))
  = (replacements_made (self s)
     + (Z.of_nat (count (cps (new_ip (self s))) (rewritten (self s) (decode bs)))
        - Z.of_nat (count (cps (new_ip (self s))) (decode bs))))%Z.
Proof.
  intros Hread Hdiff. unfold rewritten in *.
  pose proof (bool_decide_eq_true_2 _ Hdiff) as Hchg.
  branches; done.
Qed.

Lemma process_file_replacement_count_witness :
  replacements_made
    (self (snd (process_file Scenario.a_html
                  (Scenario.begin Scenario.updater Scenario.site))))
  = (0 + (1 - 0))%Z.
Proof.
  apply (process_file_replacement_count Scenario.a_html
           (Scenario.begin Scenario.updater Scenario.site) Scenario.original).
  - reflexivity.
  - apply (bool_decide_unpack _). vm_compute. exact I.
Defined.

(** C2, as the code has it. An exception raised while a file is processed
    is caught and logged; [process_file] returns and the loop goes on with
    the next file. The increment of [files_processed] is the last statement
    of the [try] block, so it is not reached: the counter keeps its value
    for a file that raised. *)
Theorem per_file_error_is_caught
    (p : path) (rest : list path) (s s1 : state) (e : exn) :
  process_file_body p s = (Raise e, s1) ->
  process_file p s
  = (Ok tt, {| self := self s1; fs := fs s1;
               log := log s1 ++ [(ERROR, ErrorProcessing p e)] |})
  /\ files_processed (self (snd (process_file p s))) = files_processed (self s)
  /\ for_each process_file (p :: rest) s
     = for_each process_file rest (snd (process_file p s)).
Proof.
  intros Hraise. split; [|split].
  - unfold process_file, try_except. by rewrite Hraise.
  - unfold process_file, try_except. rewrite Hraise. simpl.
    by apply process_file_body_raises in Hraise.
  - apply for_each_cons.
Qed.

Lemma per_file_error_is_caught_witness :
  process_file Scenario.a_html (Scenario.begin Scenario.updater Scenario.unreadable)
  = (Ok tt,
     {| self := Scenario.updater; fs := Scenario.unreadable;
        log := [(ERROR, ErrorProcessing Scenario.a_html
                          (PermissionError Scenario.a_html))] |})
  /\ files_processed
       (self (snd (process_file Scenario.a_html
                     (Scenario.begin Scenario.updater Scenario.unreadable)))) = 0%Z
  /\ for_each process_file [Scenario.a_html; Scenario.b_txt]
       (Scenario.begin Scenario.updater Scenario.unreadable)
     = for_each process_file [Scenario.b_txt]
         (snd (process_file Scenario.a_html
                 (Scenario.begin Scenario.updater Scenario.unreadable))).
Proof.
  apply (per_file_error_is_caught Scenario.a_html [Scenario.b_txt]
           (Scenario.begin Scenario.updater Scenario.unreadable)
           (Scenario.begin Scenario.updater Scenario.unreadable)
           (PermissionError Scenario.a_html)).
  reflexivity.
Defined.

(** C2, as the claim has it, fails: the only file found cannot be read, the
    run completes, and [files_processed] is 0, not 1. *)
Lemma errored_file_is_not_counted :
  let args := {| arg_directory := "site"; arg_old_ip := "10.0.0.1";
                 arg_new_ip := "10.0.0.2"; arg_extensions := [".html"];
                 arg_no_backup := false; arg_dry_run := false |} in
  target_files Scenario.updater Scenario.unreadable = [Scenario.a_html]
  /\ fst (process_file_body Scenario.a_html
            (Scenario.begin Scenario.updater Scenario.unreadable))
     = Raise (PermissionError Scenario.a_html)
  /\ fst (main args Scenario.unreadable) = 0%Z
  /\ files_processed (self (snd (main args Scenario.unreadable))) = 0%Z.
Proof. vm_compute. repeat split. Qed.

Lemma with_suffix_raises (p : path) (sfx : string) (e : exn) :
  with_suffix p sfx = Raise e -> exists why, e = ValueError why.
Proof.
  unfold with_suffix.
  repeat match goal with |- context [if ?b then _ else _] => destruct b end;
    intros [= <-]; by eexists.
Qed.

(** C8, as the code has it. When the exception comes after the change was
    detected, that is from the backup or from the write, [files_modified]
    and [replacements_made] have already been incremented and stay so,
    while [files_processed] is not incremented; so [files_modified] ends
    above [files_processed]. The new content is not in the file. The file
    is as it was when the exception is not that of its own write, provided
    the backup path is no other name of the file; when its own write
    failed after the file was opened, the file holds the part of the new
    content written before the failure. *)
Theorem error_after_change_keeps_counters
    (p : path) (s s1 : state) (bs : list byte) (e : exn) :
  read_file (fs s) p = Ok bs ->
  rewritten (self s) (decode bs) ≠ decode bs ->
  process_file_body p s = (Raise e, s1) ->
  let s' := snd (process_file p s) in
  files_modified (self s') = (files_modified (self s) + 1)%Z
  /\ replacements_made (self s')
     = (replacements_made (self s) + file_replacements (self s) (decode bs))%Z
  /\ files_processed (self s') = files_processed (self s)
  /\ (e ≠ OSError p -> same_file (fs s) p (backup_path_of p) = false ->
      files (fs s') !! p = files (fs s) !! p)
  /\ (e = OSError p ->
      exists fl n,
        files (fs s') !! p = Some fl
        /\ data fl = take n (encode (rewritten (self s) (decode bs))))
  /\ ((files_processed (self s) <= files_modified (self s))%Z ->
      (files_processed (self s') < files_modified (self s'))%Z).
Proof.
  intros Hread Hdiff Hraise. unfold rewritten in *.
  pose proof (bool_decide_eq_true_2 _ Hdiff) as Hchg.
  pose proof (backup_path_neq p) as Hne.
  revert Hraise. branches; intros [= <- <-]; simpl;
    (split; [done|]); (split; [done|]); (split; [done|]);
    (split; [|split; [|lia]]).
  all: try (apply with_suffix_bak in Hsfx as ->).
  - intros _ Hs. by apply (write_file_other _ _ _ _ _ _ Hwrite).
  - intros ->. by apply write_file_raised in Hwrite as [[[=] _]|[[= ?] _]].
  - intros He Hs. apply write_file_raised in Hwrite0 as [[_ ->]|[-> _]]; [|done].
    by apply (write_file_other _ _ _ _ _ _ Hwrite).
  - intros ->. by apply write_file_raised in Hwrite0 as [[[=] _]|[_ ?]].
  - done.
  - intros ->. by apply with_suffix_raises in Hsfx as [why [=]].
  - intros He _. by apply write_file_raised in Hwrite as [[_ ->]|[-> _]].
  - intros ->. by apply write_file_raised in Hwrite as [[[=] _]|[_ ?]].
Qed.

Lemma error_after_change_keeps_counters_witness :
  let s := Scenario.begin Scenario.updater Scenario.locked in
  let s' := snd (process_file Scenario.a_html s) in
  files_modified (self s') = (files_modified (self s) + 1)%Z
  /\ replacements_made (self s')
     = (replacements_made (self s)
        + file_replacements (self s) (decode Scenario.original))%Z
  /\ files_processed (self s') = files_processed (self s)
  /\ (PermissionError Scenario.a_html ≠ OSError Scenario.a_html ->
      same_file (fs s) Scenario.a_html (backup_path_of Scenario.a_html) = false ->
      files (fs s') !! Scenario.a_html = files (fs s) !! Scenario.a_html)
  /\ (PermissionError Scenario.a_html = OSError Scenario.a_html ->
      exists fl n,
        files (fs s') !! Scenario.a_html = Some fl
        /\ data fl
           = take n (encode (rewritten (self s) (decode Scenario.original))))
  /\ ((files_processed (self s) <= files_modified (self s))%Z ->
      (files_processed (self s') < files_modified (self s'))%Z).
Proof.
  apply (error_after_change_keeps_counters Scenario.a_html
           (Scenario.begin Scenario.updater Scenario.locked)
           (snd (process_file_body Scenario.a_html
                   (Scenario.begin Scenario.updater Scenario.locked)))
           Scenario.original (PermissionError Scenario.a_html)).
  - reflexivity.
  - apply (bool_decide_unpack _). vm_compute. exact I.
  - vm_compute. reflexivity.
Defined.

(** With a file that cannot be written the backup is made, the file keeps
    its content and the counters disagree. *)
Example locked_file_counters :
  let s' := snd (process_file Scenario.a_html
                   (Scenario.begin Scenario.updater Scenario.locked)) in
  data <$> files (fs s') !! Scenario.a_html = Some Scenario.original
  /\ data <$> files (fs s') !! ("site", "a.html.bak") = Some Scenario.original
  /\ files_modified (self s') = 1%Z
  /\ replacements_made (self s') = 1%Z
  /\ files_processed (self s') = 0%Z.
Proof. repeat apply conj; vm_compute; reflexivity. Qed.

(** The three kinds of per-file error, each on [a.html]: the file cannot be
    read; its backup cannot be created; its write fails. Each time the
    loop goes on to [b.txt], and [files_processed] counts [b.txt] only when
    that one went through. *)
Example per_file_errors :
  let run_on f :=
    snd (for_each process_file [Scenario.a_html; Scenario.b_txt]
           (Scenario.begin Scenario.updater f)) in
  (files_processed (self (run_on Scenario.unreadable)) = 0%Z
   /\ log (run_on Scenario.unreadable)
      = [(ERROR, ErrorProcessing Scenario.a_html (PermissionError Scenario.a_html));
         (ERROR, ErrorProcessing Scenario.b_txt (PermissionError Scenario.b_txt))])
  /\ (files_processed (self (run_on Scenario.sealed)) = 0%Z
      /\ files_modified (self (run_on Scenario.sealed)) = 2%Z
      /\ fs (run_on Scenario.sealed) = Scenario.sealed
      /\ log (run_on Scenario.sealed)
         = [(ERROR, FailedToCreateBackup Scenario.a_html
                      (PermissionError ("site", "a.html.bak")));
            (ERROR, ErrorProcessing Scenario.a_html
                      (PermissionError ("site", "a.html.bak")));
            (ERROR, FailedToCreateBackup Scenario.b_txt
                      (PermissionError ("site", "b.txt.bak")));
            (ERROR, ErrorProcessing Scenario.b_txt
                      (PermissionError ("site", "b.txt.bak")))])
  /\ (files_processed (self (run_on Scenario.faulty)) = 1%Z
      /\ files_modified (self (run_on Scenario.faulty)) = 2%Z).
Proof. repeat apply conj; vm_compute; reflexivity. Qed.

(** C8, as the claim has it, fails where a write fails after its [open].
    When it is the write of the file, the file has been opened for
    writing, so it holds what the write put there before it failed, here
    five bytes, not what it held before. When it is the write of the
    backup and [a.html.bak] is a link to [a.html], the backup was opened
    through the link and the file holds the five bytes of the copy. The
    counters are as the claim says. *)
Lemma failed_write_leaves_part :
  let s := Scenario.begin Scenario.updater Scenario.faulty in
  let s' := snd (process_file Scenario.a_html s) in
  let t := Scenario.begin Scenario.updater Scenario.backup_linked_faulty in
  let t' := snd (process_file Scenario.a_html t) in
  (fst (process_file_body Scenario.a_html s) = Raise (OSError Scenario.a_html)
   /\ data <$> files (fs s) !! Scenario.a_html = Some Scenario.original
   /\ data <$> files (fs s') !! Scenario.a_html
      = Some (list_byte_of_string "Serve")
   /\ files_modified (self s') = 1%Z
   /\ replacements_made (self s') = 1%Z
   /\ files_processed (self s') = 0%Z)
  /\ (fst (process_file_body Scenario.a_html t)
      = Raise (OSError ("site", "a.html.bak"))
      /\ data <$> files (fs t) !! Scenario.a_html = Some Scenario.original
      /\ data <$> files (fs t') !! Scenario.a_html
         = Some (list_byte_of_string "Serve")
      /\ files_modified (self t') = 1%Z
      /\ files_processed (self t') = 0%Z).
Proof. repeat apply conj; vm_compute; reflexivity. Qed.

Lemma read_file_ok (f : filesystem) (p : path) (fl : file) :
  files f !! p = Some fl -> readable fl = true -> read_file f p = Ok (data fl).
Proof. intros Hp Hr. unfold read_file. by rewrite Hp, Hr. Qed.

(** C10, as the code has it. With backups on and not in a dry run, a file
    that is read and whose text changes is first copied, byte for byte, to
    its [.bak] sibling; the copy holds the bytes of the file as it was,
    whatever the decoder dropped from the text that is then written back.
    This needs the [.bak] path to be a file of its own: where it is
    another name of the file itself, the copy is overwritten with the
    file. *)
Theorem backup_keeps_raw_bytes (p : path) (s : state) (fl : file) :
  backup (self s) = true ->
  dry_run (self s) = false ->
  files (fs s) !! p = Some fl ->
  readable fl = true ->
  rewritten (self s) (decode (data fl)) ≠ decode (data fl) ->
  valid_name (name p) ->
  can_write (fs s) (backup_path_of p) = true ->
  same_file (fs s) p (backup_path_of p) = false ->
  let s' := snd (process_file p s) in
  (exists fb, files (fs s') !! backup_path_of p = Some fb /\ data fb = data fl)
  /\ (can_write (fs s) p = true ->
      exists fl', files (fs s') !! p = Some fl'
                  /\ data fl' = encode (rewritten (self s) (decode (data fl)))).
Proof.
  intros Hbak Hdry Hp Hr Hdiff Hname Hcan Hsame. unfold rewritten in *.
  pose proof (read_file_ok _ _ _ Hp Hr) as Hread.
  pose proof (bool_decide_eq_true_2 _ Hdiff) as Hchg.
  pose proof (with_suffix_bak_ok p Hname) as Hsfx.
  destruct (write_file_ok _ _ (data fl) Hcan) as [f1 Hw1].
  destruct (write_file_same _ _ _ _ Hw1) as (fb & Hfb & Hdata & _).
  assert (same_file f1 (backup_path_of p) p = false) as Hsame1.
  { rewrite same_file_sym. by apply (write_file_apart _ _ _ _ _ _ _ Hw1). }
  monad_unfold. norm. branch; norm.
  - split.
    + exists fb. split; [|done].
      by destruct (write_file_other _ _ _ _ _ _ Hwrite Hsame1) as [_ ->].
    + intros Hw. exfalso.
      rewrite <- (can_write_frame _ _ _ _ _ _ Hw1 Hsame) in Hw.
      destruct (write_file_ok _ _ (encode (replace (cps (old_ip (self s)))
                                             (cps (new_ip (self s)))
                                             (decode (data fl)))) Hw)
        as [f2 Hw2].
      congruence.
  - split.
    + exists fb. split; [|done].
      by destruct (write_file_other _ _ _ _ _ _ Hwrite Hsame1) as [_ ->].
    + intros _. apply write_file_same in Hwrite as (fl' & ? & ? & _).
      by exists fl'.
Qed.

Lemma backup_keeps_raw_bytes_witness :
  let s := Scenario.begin Scenario.updater Scenario.damaged in
  let s' := snd (process_file Scenario.a_html s) in
  (exists fb, files (fs s') !! backup_path_of Scenario.a_html = Some fb
              /\ data fb = Scenario.original ++ [xff])
  /\ (can_write (fs s) Scenario.a_html = true ->
      exists fl', files (fs s') !! Scenario.a_html = Some fl'
                  /\ data fl'
                     = encode (rewritten (self s)
                                 (decode (Scenario.original ++ [xff])))).
Proof.
  apply (backup_keeps_raw_bytes Scenario.a_html
           (Scenario.begin Scenario.updater Scenario.damaged)
           (Scenario.plain (Scenario.original ++ [xff]))).
  - reflexivity.
  - reflexivity.
  - reflexivity.
  - reflexivity.
  - apply (bool_decide_unpack _). vm_compute. exact I.
  - split; [discriminate | reflexivity].
  - reflexivity.
  - reflexivity.
Defined.

(** On that file the decoder drops the stray byte: the file is written back
    without it, and the backup still has it. *)
Example damaged_file_backup :
  let s' := snd (process_file Scenario.a_html
                   (Scenario.begin Scenario.updater Scenario.damaged)) in
  data <$> files (fs s') !! Scenario.a_html
  = Some (list_byte_of_string "Server at 10.0.0.2 ready")
  /\ data <$> files (fs s') !! ("site", "a.html.bak")
     = Some (list_byte_of_string "Server at 10.0.0.1 ready" ++ [xff]).
Proof. split; vm_compute; reflexivity. Qed.

(** C10, as the claim has it, fails where [a.html.bak] is a link to
    [a.html]: the file can be read and written and so can the backup path,
    the backup is made and the file is rewritten without an error, and
    the backup path ends with the new content; the bytes the file had
    are nowhere. *)
Lemma backup_through_link_is_lost :
  let s := Scenario.begin Scenario.updater Scenario.backup_linked in
  let s' := snd (process_file Scenario.a_html s) in
  data <$> files (fs s) !! Scenario.a_html = Some Scenario.original
  /\ can_write (fs s) Scenario.a_html = true
  /\ can_write (fs s) (backup_path_of Scenario.a_html) = true
  /\ log s' = [(DEBUG, CreatedBackup ("site", "a.html.bak"));
               (INFO, Modified Scenario.a_html 1)]
  /\ data <$> files (fs s') !! Scenario.a_html
     = Some (list_byte_of_string "Server at 10.0.0.2 ready")
  /\ data <$> files (fs s') !! ("site", "a.html.bak")
     = Some (list_byte_of_string "Server at 10.0.0.2 ready").
Proof. repeat apply conj; vm_compute; reflexivity. Qed.

(** ** The checks of [validate_inputs] *)

Lemma is_dir_exists (f : filesystem) (d : string) :
  is_dir f d = Ok true -> path_exists f d = Ok true.
Proof.
  unfold is_dir, path_exists. destruct (bool_decide _); [done|].
  by destruct (stat f !! d).
Qed.

Lemma validate_inputs_state (s : state) : snd (validate_inputs s) = s.
Proof.
  unfold validate_inputs, gets, raise, lift, mbind, M_bind, mret, M_ret. simpl.
  destruct (path_exists _ _) as [[]|]; simpl; [|done..].
  destruct (is_dir _ _) as [[]|]; simpl; [|done..].
  repeat match goal with |- context [if ?b then _ else _] => destruct b end;
    done.
Qed.

Lemma validate_inputs_ok (s : state) :
  fst (validate_inputs s) = Ok tt <-> valid (self s) (fs s).
Proof.
  unfold validate_inputs, valid, gets, raise, lift, mbind, M_bind, mret, M_ret.
  simpl.
  destruct (is_dir (fs s) (directory (self s))) as [[]|e] eqn:Hdir.
  - rewrite (is_dir_exists _ _ Hdir). simpl.
    destruct (re_match ip_pattern (old_ip (self s))); simpl.
    2:{ split; [done|]. by intros (_ & ? & _). }
    destruct (re_match ip_pattern (new_ip (self s))); simpl.
    2:{ split; [done|]. by intros (_ & _ & ? & _). }
    destruct (String.eqb_spec (old_ip (self s)) (new_ip (self s))); simpl.
    + split; [done|]. by intros (_ & _ & _ & ?).
    + done.
  - destruct (path_exists _ _) as [[]|]; simpl; (split; [done|]); by intros [? _].
  - destruct (path_exists _ _) as [[]|]; simpl; (split; [done|]); by intros [? _].
Qed.

Lemma valid_old_nonempty (u : LinkUpdater) (f : filesystem) :
  valid u f -> cps (old_ip u) ≠ [].
Proof.
  intros (_ & Hold & _). apply cps_nonempty. by intros Heq; rewrite Heq in Hold.
Qed.

Lemma valid_old_new (u : LinkUpdater) (f : filesystem) :
  valid u f -> cps (old_ip u) ≠ cps (new_ip u).
Proof. intros (_ & _ & _ & Hne) Heq. by apply Hne, cps_inj. Qed.

(** ** The loop over the files *)

Lemma rewritten_config (u u' : LinkUpdater) (t : text) :
  config u = config u' -> rewritten u t = rewritten u' t.
Proof. unfold config, rewritten. by intros [= _ -> -> _ _ _]. Qed.

Lemma would_modify_config (u u' : LinkUpdater) (f : filesystem) (p : path) :
  config u = config u' -> would_modify u f p = would_modify u' f p.
Proof.
  intros H. unfold would_modify. destruct (read_file f p); [|done].
  by rewrite (rewritten_config _ _ _ H).
Qed.

Lemma file_replacements_config (u u' : LinkUpdater) (t : text) :
  config u = config u' -> file_replacements u t = file_replacements u' t.
Proof.
  intros H. unfold file_replacements. rewrite (rewritten_config _ _ _ H).
  unfold config in H. by injection H as _ _ -> _ _ _.
Qed.

Lemma process_file_keeps (p : path) (s : state) :
  would_modify (self s) (fs s) p = false ->
  fs (snd (process_file p s)) = fs s
  /\ files_modified (self (snd (process_file p s))) = files_modified (self s)
  /\ replacements_made (self (snd (process_file p s)))
     = replacements_made (self s).
Proof.
  unfold would_modify, rewritten. destruct (read_file (fs s) p) eqn:Hread.
  - intros Hchg. branches; done.
  - intros _. branches; done.
Qed.

Lemma process_file_counts (p : path) (s : state) :
  would_modify (self s) (fs s) p = true ->
  files_modified (self (snd (process_file p s)))
  = (files_modified (self s) + 1)%Z.
Proof.
  unfold would_modify, rewritten. destruct (read_file (fs s) p) eqn:Hread.
  - intros Hchg. branches; done.
  - done.
Qed.

Lemma process_file_log (p : path) (s : state) :
  exists l, log (snd (process_file p s)) = log s ++ l.
Proof.
  branches; rewrite <- ?app_assoc; by eexists.
Qed.

Lemma for_each_returns (l : list path) (s : state) :
  fst (for_each process_file l s) = Ok tt.
Proof.
  revert s. induction l as [|p l IH]; intros s; [done|].
  by rewrite for_each_cons.
Qed.


Lemma for_each_log (l : list path) (s : state) :
  exists k, log (snd (for_each process_file l s)) = log s ++ k.
Proof.
  revert s. induction l as [|p l IH]; intros s.
  - exists []. simpl. by rewrite app_nil_r.
  - rewrite for_each_cons. destruct (IH (snd (process_file p s))) as [k ->].
    destruct (process_file_log p s) as [k' ->].
    rewrite <- app_assoc. by eexists.
Qed.

(** ** The whole run *)

(** A valid run is the loop over the files found, between log lines: it
    returns, and the object and the store it leaves are those the loop
    leaves. When no file is found the loop is empty and the only line
    after it is the warning. *)
Lemma run_valid (s : state) :
  valid (self s) (fs s) ->
  exists s0 k,
    self s0 = self s /\ fs s0 = fs s
    /\ let s1 := snd (for_each process_file
                        (target_files (self s) (fs s)) s0) in
       run s = (Returned, {| self := self s1; fs := fs s1; log := log s1 ++ k |})
       /\ (target_files (self s) (fs s) = [] ->
           k = [(WARNING, NoFilesFound (extensions (self s)))]).
Proof.
  intros Hv. apply validate_inputs_ok in Hv.
  pose proof (validate_inputs_state s) as Hs.
  unfold run, run_body. unfold mbind at 1. unfold M_bind at 1.
  destruct (validate_inputs s) as [r sv]. simpl in Hv, Hs. subst r sv.
  unfold find_target_files, logger, gets, mbind, M_bind, mret, M_ret. simpl.
  destruct (target_files (self s) (fs s)) as [|p l] eqn:Ht.
  - exists (announced s), [(WARNING, NoFilesFound (extensions (self s)))].
    simpl. rewrite <- !app_assoc. done.
  - match goal with
    | |- context [for_each process_file (p :: l) ?s0] =>
        exists s0;
        pose proof (for_each_returns (p :: l) s0) as Hret;
        destruct (for_each process_file (p :: l) s0) as [r s1] eqn:Hloop
    end.
    simpl in Hret. subst r. simpl.
    destruct (dry_run (self s1)); [|destruct (_ && _)]; simpl;
      eexists; (split; [reflexivity|]); (split; [reflexivity|]);
      rewrite <- ?app_assoc; (split; [reflexivity|done]).
Qed.

Lemma run_invalid (s : state) :
  ~ valid (self s) (fs s) ->
  exists e, run s = (SystemExit 1,
                     {| self := self s; fs := fs s;
                        log := log s ++ [(ERROR, ErrorMessage e)] |}).
Proof.
  intros Hv. rewrite <- validate_inputs_ok in Hv.
  pose proof (validate_inputs_state s) as Hs.
  unfold run, run_body. unfold mbind at 1. unfold M_bind at 1.
  destruct (validate_inputs s) as [[[]|e] sv]; simpl in Hv, Hs; subst sv.
  - done.
  - by exists e.
Qed.

Lemma main_run (args : arguments) (f : filesystem) :
  main args f
  = (exit_code (fst (run {| self := updater_of args; fs := f; log := [] |})),
     snd (run {| self := updater_of args; fs := f; log := [] |})).
Proof. unfold main, updater_of. by destruct (run _). Qed.

(** No file of the walk has a listed extension exactly when the list of
    target files is empty. *)
Lemma target_files_nil (u : LinkUpdater) (f : filesystem) :
  target_files u f = []
  <-> forall root dirs names file,
        (root, dirs, names) ∈ os_walk f (directory u) ->
        file ∈ names ->
        lower (suffix_of_name file) ∉ extensions u.
Proof.
  unfold target_files. induction (os_walk f (directory u)) as [|[[r d] ns] w IH].
  - simpl. split; [|done]. intros _ root dirs names file H. by apply elem_of_nil in H.
  - simpl. split.
    + intros [Hhd Htl]%app_eq_nil root dirs names file Hin Hfile.
      apply elem_of_cons in Hin as [[= -> -> ->]|Hin].
      * apply map_eq_nil in Hhd. intros Hext.
        assert (In file (List.filter (matches_extension (extensions u)) ns)) as Hf.
        { apply filter_In. split; [by apply list_elem_of_In|].
          by apply bool_decide_eq_true_2. }
        by rewrite Hhd in Hf.
      * by apply (proj1 IH Htl root dirs names file).
    + intros H.
      assert (List.filter (matches_extension (extensions u)) ns = []) as ->.
      { destruct (List.filter _ ns) as [|x xs] eqn:Hf; [done|]. exfalso.
        assert (In x (List.filter (matches_extension (extensions u)) ns)) as Hx.
        { rewrite Hf. by left. }
        apply filter_In in Hx as [Hx Hm].
        apply bool_decide_eq_true_1 in Hm.
        apply (H r d ns x); [by left|by apply list_elem_of_In|done]. }
      simpl. apply IH. intros root dirs names file Hin.
      apply (H root dirs names file). by right.
Qed.

(** C6. When the configuration is valid and no file under the directory
    has a listed extension, the program ends with exit status 0, the three
    counters are 0, the store is as it was, and the log holds the warning
    that no file was found. *)
Theorem no_matching_files (args : arguments) (f : filesystem) :
  let u := updater_of args in
  valid u f ->
  (forall root dirs names file,
     (root, dirs, names) ∈ os_walk f (directory u) ->
     file ∈ names ->
     lower (suffix_of_name file) ∉ extensions u) ->
  fst (main args f) = 0%Z
  /\ fs (snd (main args f)) = f
  /\ files_processed (self (snd (main args f))) = 0%Z
  /\ files_modified (self (snd (main args f))) = 0%Z
  /\ replacements_made (self (snd (main args f))) = 0%Z
  /\ (WARNING, NoFilesFound (extensions u)) ∈ log (snd (main args f)).
Proof.
  intros u Hv Hnone. apply target_files_nil in Hnone.
  rewrite main_run. fold u.
  destruct (run_valid {| self := u; fs := f; log := [] |} Hv)
    as (s0 & k & Hself & Hfs & Hrun & Hk).
  cbn [self fs log] in *. rewrite Hnone in Hrun. specialize (Hk Hnone). subst k.
  simpl in Hrun. rewrite Hrun. simpl. rewrite Hself, Hfs.
  repeat split; try done.
  apply elem_of_app. right. by left.
Qed.

Lemma no_matching_files_witness :
  let args := {| arg_directory := "site"; arg_old_ip := "10.0.0.1";
                 arg_new_ip := "10.0.0.2"; arg_extensions := ["php"];
                 arg_no_backup := false; arg_dry_run := false |} in
  fst (main args Scenario.site) = 0%Z
  /\ fs (snd (main args Scenario.site)) = Scenario.site
  /\ files_processed (self (snd (main args Scenario.site))) = 0%Z
  /\ files_modified (self (snd (main args Scenario.site))) = 0%Z
  /\ replacements_made (self (snd (main args Scenario.site))) = 0%Z
  /\ (WARNING, NoFilesFound [".php"]) ∈ log (snd (main args Scenario.site)).
Proof.
  apply (no_matching_files
           {| arg_directory := "site"; arg_old_ip := "10.0.0.1";
              arg_new_ip := "10.0.0.2"; arg_extensions := ["php"];
              arg_no_backup := false; arg_dry_run := false |}
           Scenario.site).
  - repeat split; try reflexivity. discriminate.
  - apply target_files_nil. reflexivity.
Defined.

(** ** Dry runs *)

Lemma reported_config (u u' : LinkUpdater) (f : filesystem) (p : path) :
  config u = config u' -> reported u f p = reported u' f p.
Proof.
  intros H. unfold reported. destruct (read_file f p); [|done].
  by apply file_replacements_config.
Qed.

Lemma config_backup (u u' : LinkUpdater) :
  config u = config u' -> backup u = backup u'.
Proof. unfold config. by intros [= _ _ _ _ -> _]. Qed.

Lemma config_dry_run (u u' : LinkUpdater) :
  config u = config u' -> dry_run u = dry_run u'.
Proof. unfold config. by intros [= _ _ _ _ _ ->]. Qed.

Lemma process_file_dry_run_log (p : path) (s : state) :
  dry_run (self s) = true ->
  would_modify (self s) (fs s) p = true ->
  log (snd (process_file p s))
  = log s ++ [(INFO, DryRunWouldModify p (reported (self s) (fs s) p))].
Proof.
  intros Hdry. unfold would_modify, reported.
  destruct (read_file (fs s) p) as [bs|] eqn:Hread; [|done].
  intros Hchg%bool_decide_eq_true_1.
  by rewrite (process_file_dry_run p s bs Hdry Hread Hchg).
Qed.

Lemma for_each_dry_run (l : list path) (s : state) :
  dry_run (self s) = true ->
  let s' := snd (for_each process_file l s) in
  fs s' = fs s
  /\ files_modified (self s')
     = (files_modified (self s)
        + Z.of_nat (length (List.filter (would_modify (self s) (fs s)) l)))%Z
  /\ forall p, p ∈ l -> would_modify (self s) (fs s) p = true ->
       (INFO, DryRunWouldModify p (reported (self s) (fs s) p)) ∈ log s'.
Proof.
  revert s. induction l as [|p l IH]; intros s Hdry.
  - simpl. repeat split; [lia|]. intros p H. by apply elem_of_nil in H.
  - cbv zeta. rewrite for_each_cons.
    pose proof (process_file_config p s) as Hcfg.
    pose proof (process_file_dry_run_fs p s Hdry) as Hfs.
    assert (dry_run (self (snd (process_file p s))) = true) as Hdry1.
    { by rewrite (config_dry_run _ _ Hcfg). }
    destruct (IH _ Hdry1) as (IHfs & IHn & IHlog).
    rewrite Hfs in IHfs, IHn, IHlog.
    assert (forall q, would_modify (self (snd (process_file p s))) (fs s) q
                      = would_modify (self s) (fs s) q) as Hwm.
    { intros q. by apply would_modify_config. }
    rewrite (filter_ext _ _ Hwm) in IHn.
    split; [done|]. split.
    + rewrite IHn. simpl List.filter.
      destruct (would_modify (self s) (fs s) p) eqn:Hp.
      * rewrite (process_file_counts p s Hp). simpl length. lia.
      * destruct (process_file_keeps p s Hp) as (_ & -> & _). lia.
    + intros q [->|Hq]%elem_of_cons Hmod.
      * destruct (for_each_log l (snd (process_file p s))) as [k ->].
        rewrite (process_file_dry_run_log p s Hdry Hmod).
        apply elem_of_app. left. apply elem_of_app. right. by left.
      * rewrite <- (reported_config _ _ _ _ Hcfg). apply IHlog; [done|].
        by rewrite Hwm.
Qed.

(** C4. In a dry run the store after [run] is the store before it: no file
    is rewritten and no [.bak] file appears. The files whose text would
    change are still counted in [files_modified], and each of them has its
    line in the log. *)
Theorem dry_run_writes_nothing (s : state) :
  dry_run (self s) = true ->
  fs (snd (run s)) = fs s
  /\ (valid (self s) (fs s) ->
      files_modified (self (snd (run s)))
      = (files_modified (self s)
         + Z.of_nat (length (List.filter (would_modify (self s) (fs s))
                               (target_files (self s) (fs s)))))%Z
      /\ forall p, p ∈ target_files (self s) (fs s) ->
           would_modify (self s) (fs s) p = true ->
           (INFO, DryRunWouldModify p (reported (self s) (fs s) p))
           ∈ log (snd (run s))).
Proof.
  intros Hdry.
  assert (valid (self s) (fs s) ->
          fs (snd (run s)) = fs s
          /\ files_modified (self (snd (run s)))
             = (files_modified (self s)
                + Z.of_nat (length (List.filter (would_modify (self s) (fs s))
                                      (target_files (self s) (fs s)))))%Z
          /\ forall p, p ∈ target_files (self s) (fs s) ->
               would_modify (self s) (fs s) p = true ->
               (INFO, DryRunWouldModify p (reported (self s) (fs s) p))
               ∈ log (snd (run s))) as Hvalid.
  { intros Hv. destruct (run_valid s Hv) as (s0 & k & Hself & Hfs & Hrun & _).
    cbv zeta in Hrun. rewrite Hrun. simpl.
    assert (dry_run (self s0) = true) as Hdry0 by by rewrite Hself.
    destruct (for_each_dry_run (target_files (self s) (fs s)) s0 Hdry0)
      as (H1 & H2 & H3).
    rewrite Hself, Hfs in *. split; [done|]. split; [done|].
    intros p Hp Hmod. apply elem_of_app. left. by apply H3. }
  split.
  - destruct (fst (validate_inputs s)) as [[]|e] eqn:Hval.
    + apply validate_inputs_ok in Hval. by apply Hvalid.
    + assert (~ valid (self s) (fs s)) as Hnv.
      { intros Hv%validate_inputs_ok. congruence. }
      destruct (run_invalid s Hnv) as [e' ->]. done.
  - intros Hv. by apply Hvalid.
Qed.

Lemma dry_run_writes_nothing_witness :
  let s := Scenario.begin Scenario.dry_updater Scenario.site in
  fs (snd (run s)) = fs s
  /\ (valid (self s) (fs s) ->
      files_modified (self (snd (run s)))
      = (files_modified (self s)
         + Z.of_nat (length (List.filter (would_modify (self s) (fs s))
                               (target_files (self s) (fs s)))))%Z
      /\ forall p, p ∈ target_files (self s) (fs s) ->
           would_modify (self s) (fs s) p = true ->
           (INFO, DryRunWouldModify p (reported (self s) (fs s) p))
           ∈ log (snd (run s))).
Proof.
  apply (dry_run_writes_nothing
           (Scenario.begin Scenario.dry_updater Scenario.site)).
  reflexivity.
Defined.

Example dry_run_scenario :
  let s := Scenario.begin Scenario.dry_updater Scenario.site in
  fs (snd (run s)) = Scenario.site
  /\ files (fs (snd (run s))) !! ("site", "a.html.bak") = None
  /\ files_modified (self (snd (run s))) = 1%Z
  /\ (INFO, DryRunWouldModify Scenario.a_html 1) ∈ log (snd (run s)).
Proof.
  split; [|split; [|split]]; [reflexivity..|].
  vm_compute. repeat constructor.
Qed.

(** ** A file that is rewritten *)

(** Processing a file leaves alone the files that neither its path nor its
    backup path names, and does not make them the same file as another. *)
Lemma process_file_other (p q : path) (s : state) :
  same_file (fs s) q p = false ->
  same_file (fs s) q (backup_path_of p) = false ->
  files (fs (snd (process_file p s))) !! q = files (fs s) !! q
  /\ forall x, same_file (fs s) q x = false ->
               same_file (fs (snd (process_file p s))) q x = false.
Proof.
  intros Hp Hb. branches; try done;
    try (apply with_suffix_bak in Hsfx as ->);
    repeat match goal with
    | Hw : write_file ?f ?w _ = _, Hq : same_file ?f q ?w = false |- _ =>
        let H1 := fresh in
        let H2 := fresh in
        pose proof (write_file_other _ _ _ _ _ _ Hw Hq) as [_ H1];
        pose proof (fun x => write_file_apart _ _ _ _ x _ _ Hw Hq) as H2;
        try (pose proof (H2 p Hp)); clear Hw
    end; split; try congruence; eauto.
Qed.







(** The scenario of the specification, evaluated. *)
Example spec_scenario :
  let args := {| arg_directory := "site"; arg_old_ip := "10.0.0.1";
                 arg_new_ip := "10.0.0.2"; arg_extensions := [".html"];
                 arg_no_backup := false; arg_dry_run := false |} in
  let s' := snd (main args Scenario.site) in
  fst (main args Scenario.site) = 0%Z
  /\ data <$> files (fs s') !! ("site", "a.html")
     = Some (list_byte_of_string "Server at 10.0.0.2 ready")
  /\ data <$> files (fs s') !! ("site", "a.html.bak")
     = Some (list_byte_of_string "Server at 10.0.0.1 ready")
  /\ files (fs s') !! ("site", "b.txt") = files Scenario.site !! ("site", "b.txt")
  /\ files_processed (self s') = 1%Z
  /\ files_modified (self s') = 1%Z
  /\ replacements_made (self s') = 1%Z.
Proof. repeat apply conj; vm_compute; reflexivity. Qed.


(** ** The constructor *)



Lemma lower_startswith_dot (s : string) :
  startswith_dot s = true -> startswith_dot (lower s) = true.
Proof.
  destruct s as [|c s]; [done|]. simpl.
  destruct (Ascii.eqb_spec c ".") as [->|Hc]; [done|].
  by destruct c as [[] [] [] [] [] [] [] []].
Qed.

Lemma startswith_dot_add (s : string) :
  startswith_dot (if startswith_dot s then s else "." +:+ s) = true.
Proof. by destruct (startswith_dot s) eqn:H. Qed.




Example init_extensions_cli :
  extensions (init "site" "10.0.0.1" "10.0.0.2" (Some ["TXT"; ".Md"; ""]) true false)
  = [".txt"; ".md"; "."].
Proof. reflexivity. Qed.

(** ** The checks on IP strings *)

(** C5, at the input where the code leaves the claim. The old IP is
    [10.0.0.1] followed by a newline: it has not the shape of four groups of
    digits, yet [$] matches before the final newline, [validate_inputs]
    accepts it and the program ends with status 0. *)
Theorem validate_accepts_trailing_newline :
  let old_ip := "10.0.0.1" +:+ newline in
  let args := {| arg_directory := "site"; arg_old_ip := old_ip;
                 arg_new_ip := "10.0.0.2"; arg_extensions := [".html"];
                 arg_no_backup := false; arg_dry_run := false |} in
  spec_ip_shape old_ip = false
  /\ fst (validate_inputs (Scenario.begin (updater_of args) Scenario.site)) = Ok tt
  /\ fst (main args Scenario.site) = 0%Z.
Proof. vm_compute. repeat split. Qed.

Example spec_ip_shape_samples :
  spec_ip_shape "10.100.100.114" = true
  /\ spec_ip_shape "999.0.0.1" = true
  /\ spec_ip_shape "10.0.1" = false
  /\ spec_ip_shape "10.0.0.1234" = false
  /\ spec_ip_shape "10.0.0.1." = false
  /\ spec_ip_shape "" = false.
Proof. vm_compute. repeat split. Qed.

(** ** What the pattern accepts *)

(** The matcher only looks at the truth values of its continuation. *)
Lemma exec_ext (r : regex) (pos : nat) (s : string) (k k' : nat -> string -> bool) :
  (forall p t, k p t = k' p t) -> exec r pos s k = exec r pos s k'.
Proof.
  revert pos s k k'.
  induction r as [| |c|lo hi|r1 IH1 r2 IH2|r1 IH1 lo hi]; intros pos s k k' H; simpl.
  - by rewrite H.
  - by rewrite H.
  - destruct s; [done|]. by rewrite H.
  - destruct s; [done|]. by rewrite H.
  - apply IH1. intros p t. by apply IH2.
  - revert lo pos s. induction hi as [|hi IHhi]; intros lo pos s.
    + by rewrite H.
    + rewrite H. f_equal. apply IH1. intros p t. apply IHhi.
Qed.

Lemma exec_repeat_3 (r : regex) (pos : nat) (s : string) (k : nat -> string -> bool) :
  exec (Repeat r 3 3) pos s k
  = exec r pos s (fun p1 s1 => exec r p1 s1 (fun p2 s2 => exec r p2 s2 k)).
Proof.
  simpl. rewrite orb_false_r. apply exec_ext. intros p1 s1.
  rewrite orb_false_r. apply exec_ext. intros p2 s2.
  by rewrite orb_false_r.
Qed.

Lemma exec_group_unfold (pos : nat) (s : string) (k : nat -> string -> bool) :
  exec (Repeat digit 1 3) pos s k =
  match s with
  | String a s1 =>
      in_range "0" "9" a &&
      (match s1 with
       | String b s2 =>
           in_range "0" "9" b &&
           (match s2 with
            | String c s3 => in_range "0" "9" c && k (S (S (S pos))) s3
            | EmptyString => false
            end || k (S (S pos)) s2)
       | EmptyString => false
       end || k (S pos) s1)
  | EmptyString => false
  end.
Proof.
  destruct s as [|a [|b [|c s3]]]; simpl; try reflexivity.
  all: repeat match goal with
       | |- context [in_range ?x ?y ?z] => destruct (in_range x y z)
       end; simpl; try reflexivity.
  all: rewrite ?orb_false_r; try reflexivity.
Qed.

(** One group of the pattern takes one to three digits off the subject. *)
Lemma exec_group (pos : nat) (s : string) (k : nat -> string -> bool) :
  exec (Repeat digit 1 3) pos s k = true
  <-> exists g s', s = g +:+ s' /\ group_shape g = true
                   /\ k (pos + String.length g) s' = true.
Proof.
  rewrite exec_group_unfold. split.
  - destruct s as [|a s1]; [done|].
    intros [Ha [H|H]%orb_true_iff]%andb_true_iff.
    + destruct s1 as [|b s2]; [done|].
      apply andb_true_iff in H as [Hb [H|H]%orb_true_iff].
      * destruct s2 as [|c s3]; [done|]. apply andb_true_iff in H as [Hc H].
        exists (String a (String b (String c ""))), s3.
        unfold group_shape. simpl. rewrite Ha, Hb, Hc.
        by replace (pos + 3) with (S (S (S pos))) by lia.
      * exists (String a (String b "")), s2.
        unfold group_shape. simpl. rewrite Ha, Hb.
        by replace (pos + 2) with (S (S pos)) by lia.
    + exists (String a ""), s1.
      unfold group_shape. simpl. rewrite Ha.
      by replace (pos + 1) with (S pos) by lia.
  - intros (g & s' & -> & Hg & Hk). unfold group_shape in Hg.
    destruct g as [|a [|b [|c [|d g]]]]; simpl in Hg; try done.
    + apply andb_true_iff in Hg as [Ha _].
      replace (pos + String.length (String a "")) with (S pos) in Hk
        by (simpl; lia).
      rewrite sapp_cons, sapp_empty_l, Ha, Hk. simpl. apply orb_true_r.
    + apply andb_true_iff in Hg as [Ha [Hb _]%andb_true_iff].
      replace (pos + String.length (String a (String b ""))) with (S (S pos))
        in Hk by (simpl; lia).
      rewrite !sapp_cons, sapp_empty_l, Ha, Hb, Hk. simpl.
      by rewrite orb_true_r.
    + apply andb_true_iff in Hg as [Ha [Hb [Hc _]%andb_true_iff]%andb_true_iff].
      replace (pos + String.length (String a (String b (String c ""))))
        with (S (S (S pos))) in Hk by (simpl; lia).
      rewrite !sapp_cons, sapp_empty_l, Ha, Hb, Hc, Hk. done.
Qed.

(** A group followed by a dot. *)
Lemma exec_group_dot (pos : nat) (s : string) (k : nat -> string -> bool) :
  exec (Cat (Repeat digit 1 3) (Chr ".")) pos s k = true
  <-> exists g s', s = g +:+ "." +:+ s' /\ group_shape g = true
                   /\ k (S (pos + String.length g)) s' = true.
Proof.
  change (exec (Cat (Repeat digit 1 3) (Chr ".")) pos s k)
    with (exec (Repeat digit 1 3) pos s (fun p t => exec (Chr ".") p t k)).
  rewrite exec_group. split.
  - intros (g & t & -> & Hg & Hk). simpl in Hk.
    destruct t as [|a t]; [done|].
    apply andb_true_iff in Hk as [->%Ascii.eqb_eq Hk]. by exists g, t.
  - intros (g & t & -> & Hg & Hk). exists g, (String "." t).
    split; [done|]. split; [done|]. simpl. by rewrite Hk.
Qed.

Lemma at_end_cases (t : string) : at_end t = true <-> t = "" \/ t = newline.
Proof.
  unfold at_end, newline. destruct t as [|c [|c' t]].
  - split; [by left|done].
  - destruct (Ascii.eqb_spec c "010") as [->|Hc].
    + split; [by right|done].
    + split; [done|]. intros [|[= ?]]; done.
  - split; [done|]. by intros [|].
Qed.

(** The pattern accepts the strings that begin with four groups separated
    by dots and end there, or with one newline after them. *)
Lemma re_match_ip (s : string) :
  re_match ip_pattern s = true
  <-> exists a b c d tail,
        s = a +:+ "." +:+ b +:+ "." +:+ c +:+ "." +:+ d +:+ tail
        /\ group_shape a = true /\ group_shape b = true
        /\ group_shape c = true /\ group_shape d = true
        /\ (tail = "" \/ tail = newline).
Proof.
  unfold re_match, ip_pattern.
  change (exec (Cat Bol ?x) 0 s ?k) with (Nat.eqb 0 0 && exec x 0 s k).
  change (exec (Cat (Repeat ?r 3 3) ?y) 0 s ?k)
    with (exec (Repeat r 3 3) 0 s (fun p t => exec y p t k)).
  rewrite exec_repeat_3. change (Nat.eqb 0 0) with true.
  rewrite andb_true_l. split.
  - intros H.
    apply exec_group_dot in H as (a & s1 & -> & Ha & H).
    apply exec_group_dot in H as (b & s2 & -> & Hb & H).
    apply exec_group_dot in H as (c & s3 & -> & Hc & H).
    change (exec (Cat ?x Eol) ?p s3 ?k)
      with (exec x p s3 (fun p' t => exec Eol p' t k)) in H.
    apply exec_group in H as (d & tail & -> & Hd & H).
    simpl in H. rewrite andb_true_r in H. apply at_end_cases in H.
    by exists a, b, c, d, tail.
  - intros (a & b & c & d & tail & -> & Ha & Hb & Hc & Hd & Htail).
    apply exec_group_dot. exists a. eexists. split; [reflexivity|]. split; [done|].
    apply exec_group_dot. exists b. eexists. split; [reflexivity|]. split; [done|].
    apply exec_group_dot. exists c. eexists. split; [reflexivity|]. split; [done|].
    change (exec (Cat ?x Eol) ?p ?t ?k)
      with (exec x p t (fun p' t' => exec Eol p' t' k)).
    apply exec_group. exists d, tail. split; [done|]. split; [done|].
    simpl. rewrite andb_true_r. by apply at_end_cases.
Qed.

Lemma split_on_nonempty (c : ascii) (t : string) : split_on c t ≠ [].
Proof.
  destruct t as [|a t]; simpl; [done|].
  destruct (Ascii.eqb a c); [done|]. by destruct (split_on c t).
Qed.

Lemma join_cons (c : ascii) (g : string) (l : list string) :
  l ≠ [] -> join c (g :: l) = g +:+ String c (join c l).
Proof. by destruct l. Qed.

Lemma join_split_on (c : ascii) (t : string) : join c (split_on c t) = t.
Proof.
  induction t as [|a t IH]; [done|]. simpl split_on.
  pose proof (split_on_nonempty c t) as Hne.
  destruct (Ascii.eqb_spec a c) as [->|Hac].
  - rewrite join_cons by done. by rewrite IH.
  - destruct (split_on c t) as [|g gs]; [done|].
    destruct gs as [|g' gs].
    + simpl in *. by rewrite IH.
    + rewrite join_cons in * by done. rewrite sapp_cons. by rewrite IH.
Qed.

Lemma split_on_app (c : ascii) (g rest : string) :
  contains c g = false ->
  split_on c (g +:+ String c rest) = g :: split_on c rest.
Proof.
  induction g as [|a g IH]; intros Hg.
  - rewrite sapp_empty_l. simpl. by rewrite Ascii.eqb_refl.
  - simpl in Hg. apply orb_false_iff in Hg as [Ha Hg].
    rewrite sapp_cons. simpl. by rewrite Ha, IH.
Qed.

Lemma split_on_single (c : ascii) (g : string) :
  contains c g = false -> split_on c g = [g].
Proof.
  induction g as [|a g IH]; intros Hg; [done|].
  simpl in Hg. apply orb_false_iff in Hg as [Ha Hg].
  simpl. by rewrite Ha, IH.
Qed.

Lemma all_digits_no_dot (g : string) : all_digits g = true -> contains "." g = false.
Proof.
  induction g as [|a g IH]; [done|]. simpl.
  intros [Ha Hg]%andb_true_iff. rewrite (IH Hg), orb_false_r.
  apply Ascii.eqb_neq. by intros ->.
Qed.

Lemma group_shape_no_dot (g : string) : group_shape g = true -> contains "." g = false.
Proof.
  unfold group_shape. intros [_ Hg]%andb_true_iff. by apply all_digits_no_dot.
Qed.

(** The specification's shape, as an equation on the string. *)
Lemma spec_ip_shape_iff (t : string) :
  spec_ip_shape t = true
  <-> exists a b c d,
        t = a +:+ "." +:+ b +:+ "." +:+ c +:+ "." +:+ d
        /\ group_shape a = true /\ group_shape b = true
        /\ group_shape c = true /\ group_shape d = true.
Proof.
  unfold spec_ip_shape. split.
  - pose proof (join_split_on "." t) as Hj.
    destruct (split_on "." t) as [|a [|b [|c [|d [|e l]]]]]; try done.
    intros [[[Ha Hb]%andb_true_iff Hc]%andb_true_iff Hd]%andb_true_iff.
    exists a, b, c, d. by rewrite <- Hj.
  - intros (a & b & c & d & -> & Ha & Hb & Hc & Hd).
    rewrite !sapp_cons, !sapp_empty_l.
    rewrite (split_on_app "." a), (split_on_app "." b), (split_on_app "." c),
      (split_on_single "." d) by by apply group_shape_no_dot.
    by rewrite Ha, Hb, Hc, Hd.
Qed.

Lemma re_match_ip_pattern (s : string) :
  re_match ip_pattern s = true <-> accepted s.
Proof.
  rewrite re_match_ip. unfold accepted. split.
  - intros (a & b & c & d & tail & -> & Ha & Hb & Hc & Hd & [->| ->]).
    + left. apply spec_ip_shape_iff. exists a, b, c, d.
      by rewrite sapp_empty_r.
    + right. exists (a +:+ "." +:+ b +:+ "." +:+ c +:+ "." +:+ d).
      split; [by rewrite !sapp_assoc|].
      apply spec_ip_shape_iff. by exists a, b, c, d.
  - intros [H|(t & -> & H)];
      apply spec_ip_shape_iff in H as (a & b & c & d & -> & Ha & Hb & Hc & Hd);
      exists a, b, c, d.
    + exists "". rewrite sapp_empty_r. repeat split; try done. by left.
    + exists newline. rewrite !sapp_assoc. repeat split; try done. by right.
Qed.

(** X5. [validate_inputs] raises nothing exactly when the directory is
    one, both IP strings have the shape of four groups of one to three
    digits, possibly with a newline after it, and they differ. *)
Lemma validate_inputs_accepts (s : state) :
  fst (validate_inputs s) = Ok tt
  <-> is_dir (fs s) (directory (self s)) = Ok true
      /\ accepted (old_ip (self s)) /\ accepted (new_ip (self s))
      /\ old_ip (self s) ≠ new_ip (self s).
Proof.
  rewrite validate_inputs_ok. unfold valid.
  by rewrite !re_match_ip_pattern.
Qed.

(** ** Reading back what was written *)

Lemma scalar_iff (c : N) :
  scalar c = true <-> (c < 55296 \/ 57344 <= c < 1114112)%N.
Proof.
  unfold scalar.
  rewrite orb_true_iff, andb_true_iff, !N.ltb_lt, N.leb_le. tauto.
Qed.

Lemma clean_iff (c : N) : clean c = true <-> scalar c = true /\ c ≠ 13%N.
Proof.
  unfold clean. by rewrite andb_true_iff, negb_true_iff, N.eqb_neq.
Qed.

(** The decoder yields Unicode scalar values only. *)
Lemma utf8_decode_scalar (bs : list N) :
  Forall (fun b => (b < 256)%N) bs ->
  Forall (fun c => scalar c = true) (utf8_decode bs).
Proof.
  remember (length bs) as n eqn:Hn.
  assert (length bs <= n) as Hlen by lia. clear Hn. revert bs Hlen.
  induction n as [|n IH]; intros [|b0 r0] Hlen Hb;
    try (simpl in Hlen; lia); try constructor.
  apply Forall_cons in Hb as [Hb0 Hr0]. simpl in Hlen.
  assert (forall r, length r <= n -> Forall (fun b => (b < 256)%N) r ->
                    Forall (fun c => scalar c = true) (utf8_decode r)) as Hsub
    by (intros; by apply IH).
  cbn [utf8_decode].
  destruct (b0 <? 128)%N eqn:H1.
  { constructor; [|apply Hsub; [lia|done]]. apply scalar_iff. tests. lia. }
  destruct (b0 <? 194)%N eqn:H2; [apply Hsub; [lia|done]|].
  destruct (b0 <? 224)%N eqn:H3.
  { destruct r0 as [|b1 r1]; [constructor|].
    apply Forall_cons in Hr0 as [Hb1 Hr1]. simpl in Hlen.
    destruct (is_cont b1) eqn:C1; [|apply Hsub; [simpl; lia|by constructor]].
    constructor; [|apply Hsub; [lia|done]]. apply scalar_iff. tests. lia. }
  destruct (b0 <? 240)%N eqn:H4.
  { destruct r0 as [|b1 r1]; [constructor|].
    apply Forall_cons in Hr0 as [Hb1 Hr1]. simpl in Hlen.
    destruct (second_of3 b0 b1) eqn:C1;
      [|apply Hsub; [simpl; lia|by constructor]].
    destruct r1 as [|b2 r2]; [constructor|].
    apply Forall_cons in Hr1 as [Hb2 Hr2]. simpl in Hlen.
    destruct (is_cont b2) eqn:C2; [|apply Hsub; [simpl; lia|by constructor]].
    constructor; [|apply Hsub; [lia|done]]. apply scalar_iff. tests; lia. }
  destruct (b0 <? 245)%N eqn:H5; [|apply Hsub; [lia|done]].
  destruct r0 as [|b1 r1]; [constructor|].
  apply Forall_cons in Hr0 as [Hb1 Hr1]. simpl in Hlen.
  destruct (second_of4 b0 b1) eqn:C1;
    [|apply Hsub; [simpl; lia|by constructor]].
  destruct r1 as [|b2 r2]; [constructor|].
  apply Forall_cons in Hr1 as [Hb2 Hr2]. simpl in Hlen.
  destruct (is_cont b2) eqn:C2; [|apply Hsub; [simpl; lia|by constructor]].
  destruct r2 as [|b3 r3]; [constructor|].
  apply Forall_cons in Hr2 as [Hb3 Hr3]. simpl in Hlen.
  destruct (is_cont b3) eqn:C3; [|apply Hsub; [simpl; lia|by constructor]].
  constructor; [|apply Hsub; [lia|done]]. apply scalar_iff. tests; lia.
Qed.

Lemma universal_newlines_other (c : N) (t : text) :
  c ≠ 13%N -> universal_newlines (c :: t) = c :: universal_newlines t.
Proof.
  intros Hc. destruct c as [|p]; [done|].
  do 4 (destruct p as [p|p|]; try done).
Qed.

Lemma universal_newlines_cr (t : text) :
  universal_newlines (13%N :: t)
  = 10%N :: match t with
            | c :: t' => if (c =? 10)%N then universal_newlines t'
                         else universal_newlines t
            | [] => []
            end.
Proof.
  destruct t as [|c t']; [done|]. cbn [universal_newlines].
  destruct c as [|p]; [done|].
  do 4 (destruct p as [p|p|]; try done).
Qed.

(** Translating the newlines leaves no carriage return. *)
Lemma universal_newlines_clean (t : text) :
  Forall (fun c => scalar c = true) t ->
  Forall (fun c => clean c = true) (universal_newlines t).
Proof.
  remember (length t) as n eqn:Hn.
  assert (length t <= n) as Hlen by lia. clear Hn. revert t Hlen.
  induction n as [|n IH]; intros [|c t] Hlen Ht;
    try (simpl in Hlen; lia); try constructor.
  apply Forall_cons in Ht as [Hc Ht]. simpl in Hlen.
  destruct (N.eq_dec c 13%N) as [->|Hne].
  - rewrite universal_newlines_cr. constructor; [done|].
    destruct t as [|c' t']; [constructor|].
    apply Forall_cons in Ht as [Hc' Ht']. simpl in Hlen.
    destruct (c' =? 10)%N; apply IH; [lia|done|simpl; lia|by constructor].
  - rewrite universal_newlines_other by done.
    constructor; [by apply clean_iff|]. apply IH; [lia|done].
Qed.

Lemma universal_newlines_id (t : text) :
  Forall (fun c => clean c = true) t -> universal_newlines t = t.
Proof.
  induction 1 as [|c t Hc _ IH]; [done|].
  apply clean_iff in Hc as [_ Hc].
  by rewrite universal_newlines_other, IH.
Qed.

Lemma to_N_bounded (bs : list byte) :
  Forall (fun b => (b < 256)%N) (map Byte.to_N bs).
Proof.
  induction bs as [|b bs IH]; constructor; [|done].
  pose proof (Byte.to_N_bounded b). lia.
Qed.

(** What is read from a file holds Unicode scalar values and no carriage
    return. *)
Lemma decode_clean (bs : list byte) :
  Forall (fun c => clean c = true) (decode bs).
Proof.
  apply universal_newlines_clean, utf8_decode_scalar, to_N_bounded.
Qed.

Lemma to_N_byte_of_N (n : N) : (n < 256)%N -> Byte.to_N (byte_of_N n) = n.
Proof.
  intros Hn. unfold byte_of_N. destruct (Byte.of_N n) as [b|] eqn:Hb.
  - by apply Byte.to_of_N.
  - apply Byte.of_N_None_iff in Hb. lia.
Qed.

(** Decoding the UTF-8 form of a scalar value gives it back. *)
Lemma utf8_decode_encode_cp (c : N) (rest : list N) :
  scalar c = true ->
  utf8_decode (map Byte.to_N (utf8_encode_cp c) ++ rest)
  = c :: utf8_decode rest.
Proof.
  intros Hc%scalar_iff. unfold utf8_encode_cp.
  destruct (c <? 128)%N eqn:H1; [|destruct (c <? 2048)%N eqn:H2;
    [|destruct (c <? 65536)%N eqn:H3]]; tests;
    cbn [map app]; rewrite !to_N_byte_of_N by nlia; cbn [utf8_decode];
    unfold second_of3, second_of4, is_cont;
    repeat match goal with
           | |- context [(?a <? ?b)%N] =>
               first [ rewrite (proj2 (N.ltb_lt a b)) by nlia
                     | rewrite (proj2 (N.ltb_ge a b)) by nlia
                     | destruct (N.ltb_spec a b) ]
           | |- context [(?a <=? ?b)%N] =>
               first [ rewrite (proj2 (N.leb_le a b)) by nlia
                     | rewrite (proj2 (N.leb_gt a b)) by nlia ]
           | |- context [(?a =? ?b)%N] =>
               first [ rewrite (proj2 (N.eqb_eq a b)) by nlia
                     | rewrite (proj2 (N.eqb_neq a b)) by nlia ]
           | |- context [if true then _ else _] => cbn [andb negb]
           | |- context [if false then _ else _] => cbn [andb negb]
           | |- context [true && _] => cbn [andb negb]
           | |- context [negb _] => cbn [andb negb]
           end;
    f_equal; nlia.
Qed.

Lemma utf8_decode_encode (t : text) :
  Forall (fun c => scalar c = true) t ->
  utf8_decode (map Byte.to_N (encode t)) = t.
Proof.
  induction 1 as [|c t Hc _ IH]; [done|].
  unfold encode in *. cbn [flat_map]. rewrite map_app.
  by rewrite utf8_decode_encode_cp, IH.
Qed.

(** What is written is read back as it was, when it holds Unicode scalar
    values and no carriage return. *)
Lemma decode_encode (t : text) :
  Forall (fun c => clean c = true) t -> decode (encode t) = t.
Proof.
  intros Ht. unfold decode.
  rewrite utf8_decode_encode, universal_newlines_id; [done|done|].
  eapply Forall_impl; [exact Ht|]. by intros c [? _]%clean_iff.
Qed.

(** ** Running again *)

(** A write removes no file and does not change who may read it. *)
Lemma write_file_keeps (f f' : filesystem) (q p : path) (bs : list byte)
    (r : option exn) (fl0 : file) :
  write_file f q bs = (f', r) -> files f !! p = Some fl0 ->
  exists fl1, files f' !! p = Some fl1 /\ readable fl1 = readable fl0.
Proof.
  intros [[_ ->]|(i & fl & _ & Hl & Hi & Hn & _ & Hr & _)]%write_file_spec Hp;
    [by exists fl0|].
  pose proof Hp as Hp'. rewrite files_lookup in Hp'.
  destruct (links f !! p) as [j|] eqn:Hj; [simpl in Hp'|done].
  rewrite files_lookup, Hl, Hn.
  destruct (decide (p = q)) as [->|Hpq].
  - rewrite lookup_insert_eq. simpl. rewrite lookup_insert_eq.
    exists fl. split; [done|]. by apply Hr.
  - rewrite lookup_insert_ne, Hj by done. simpl.
    destruct (decide (j = i)) as [->|Hji].
    + rewrite lookup_insert_eq. exists fl. split; [done|]. apply Hr.
      destruct Hi as [Hi|[_ Hi]]; [|by destruct (Hi p)].
      by rewrite files_lookup, Hi.
    + rewrite lookup_insert_ne by done. by exists fl0.
Qed.

Lemma replace_scan_Forall (P : N -> Prop) (old new : text) (s : text) :
  Forall P new -> Forall P s ->
  forall k, Forall P (replace_scan old new k s).
Proof.
  intros Hnew Hs. induction Hs as [|c s Hc Hs IH]; intros [|k]; simpl;
    try done.
  - by destruct (starts_with old []).
  - destruct (starts_with old (c :: s)).
    + apply Forall_app. split; [done|].
      destruct (length old); [by constructor|done].
    + by constructor.
Qed.

Lemma replace_Forall (P : N -> Prop) (old new s : text) :
  Forall P new -> Forall P s -> Forall P (replace old new s).
Proof. intros. by apply replace_scan_Forall. Qed.

Lemma cps_app (a b : string) : cps (a +:+ b) = cps a ++ cps b.
Proof.
  unfold cps. induction a as [|x a IH]; [done|].
  rewrite sapp_cons. simpl. by rewrite IH.
Qed.

Lemma all_digits_clean (g : string) :
  all_digits g = true -> Forall (fun c => clean c = true) (cps g).
Proof.
  induction g as [|a g IH]; [constructor|]. simpl.
  intros [Ha Hg]%andb_true_iff. constructor; [|by apply IH].
  unfold in_range in Ha. simpl in Ha.
  apply andb_true_iff in Ha as [H1 H2]. apply N.leb_le in H1, H2.
  apply clean_iff. rewrite scalar_iff. lia.
Qed.

(** An IP string that passes the validation holds digits, dots and
    possibly a final newline. *)
Lemma ip_clean (s : string) :
  re_match ip_pattern s = true -> Forall (fun c => clean c = true) (cps s).
Proof.
  intros (a & b & c & d & tail & -> & Ha & Hb & Hc & Hd & Ht)%re_match_ip.
  assert (forall g, group_shape g = true ->
                    Forall (fun c => clean c = true) (cps g)) as Hg.
  { intros g [_ Hg]%andb_true_iff. by apply all_digits_clean. }
  rewrite !cps_app. repeat (apply Forall_app; split); try by apply Hg.
  all: try by repeat constructor.
  destruct Ht as [->| ->]; by repeat constructor.
Qed.

Lemma read_file_inv (f : filesystem) (p : path) (bs : list byte) :
  read_file f p = Ok bs ->
  exists fl, files f !! p = Some fl /\ readable fl = true /\ data fl = bs.
Proof.
  unfold read_file. destruct (files f !! p) as [fl|]; [|done].
  destruct (readable fl) eqn:Hr; [|done]. intros [= <-]. by exists fl.
Qed.

(** What a file holds once it was processed without an error, outside a
    dry run: the encoding of the rewritten text, or what it held when
    there was nothing to rewrite. *)
Lemma process_file_leaves (p : path) (s : state) (bs : list byte) :
  read_file (fs s) p = Ok bs ->
  dry_run (self s) = false ->
  fst (process_file_body p s) = Ok tt ->
  exists bs',
    read_file (fs (snd (process_file p s))) p = Ok bs'
    /\ (bs' = encode (rewritten (self s) (decode bs))
        \/ bs' = bs /\ rewritten (self s) (decode bs) = decode bs).
Proof.
  intros Hread Hdry Hok. unfold rewritten.
  destruct (read_file_inv _ _ _ Hread) as (fl0 & Hp & Hr & Hd).
  assert (exists fl,
            files (fs (snd (process_file p s))) !! p = Some fl
            /\ readable fl = true
            /\ (data fl = encode (replace (cps (old_ip (self s)))
                                    (cps (new_ip (self s))) (decode bs))
                \/ data fl = bs
                   /\ replace (cps (old_ip (self s))) (cps (new_ip (self s)))
                        (decode bs) = decode bs))
    as (fl & Hfl & Hrfl & Hdfl).
  { revert Hok. branches; intros Hok; try done.
    - destruct (write_file_keeps _ _ _ p _ _ _ Hwrite Hp) as (fl1 & Hp1 & Hr1).
      destruct (write_file_same _ _ _ _ Hwrite0) as (fl2 & Hp2 & Hd2 & _ & Hr2).
      exists fl2. split; [done|]. split; [|by left].
      by rewrite (Hr2 _ Hp1), Hr1.
    - destruct (write_file_same _ _ _ _ Hwrite) as (fl2 & Hp2 & Hd2 & _ & Hr2).
      exists fl2. split; [done|]. split; [|by left]. by rewrite (Hr2 _ Hp).
    - exists fl0. split; [done|]. split; [done|]. right. split; [done|].
      apply bool_decide_eq_false in Hchg.
      destruct (decide (replace (cps (old_ip (self s))) (cps (new_ip (self s)))
                          (decode bs) = decode bs)); [done|by destruct Hchg]. }
  exists (data fl). split; [by apply read_file_ok|done].
Qed.

(** C3, as the code has it. A file was processed without an error, not in
    a dry run, under a valid configuration; it is processed again, with
    the same configuration, while it still holds what the first pass
    left. Then what is read is the text as first read with the old IP
    replaced by the new one, and the second pass leaves [files_modified]
    as it is exactly when the old IP does not occur in that text. Literal
    replacement does not ensure that: the new IP, or its junction with the
    text around it, may hold the old IP again. *)
Theorem second_pass_modifies_iff (p : path) (s s2 : state) (bs : list byte) :
  valid (self s) (fs s) ->
  dry_run (self s) = false ->
  read_file (fs s) p = Ok bs ->
  fst (process_file_body p s) = Ok tt ->
  config (self s2) = config (self s) ->
  files (fs s2) !! p = files (fs (snd (process_file p s))) !! p ->
  let left := replace (cps (old_ip (self s))) (cps (new_ip (self s)))
                (decode bs) in
  (exists bs', read_file (fs s2) p = Ok bs' /\ decode bs' = left)
  /\ (files_modified (self (snd (process_file p s2))) = files_modified (self s2)
      <-> count (cps (old_ip (self s))) left = 0).
Proof.
  intros Hv Hdry Hread Hok Hcfg Hfiles. cbv zeta.
  pose proof (valid_old_nonempty _ _ Hv) as Hne.
  pose proof (valid_old_new _ _ Hv) as Hon.
  destruct (process_file_leaves p s bs Hread Hdry Hok) as (bs' & Hread' & Hbs').
  assert (decode bs'
          = replace (cps (old_ip (self s))) (cps (new_ip (self s))) (decode bs))
    as Hleft.
  { destruct Hbs' as [->|[-> Hsame]]; [|done]. apply decode_encode.
    apply replace_Forall; [|apply decode_clean].
    apply ip_clean. by destruct Hv as (_ & _ & ? & _). }
  assert (read_file (fs s2) p = Ok bs') as Hread2.
  { unfold read_file in *. by rewrite Hfiles. }
  split; [by exists bs'|].
  assert (would_modify (self s2) (fs s2) p
          = bool_decide (count (cps (old_ip (self s)))
                           (replace (cps (old_ip (self s)))
                              (cps (new_ip (self s))) (decode bs)) ≠ 0))
    as Hwould.
  { unfold would_modify. rewrite Hread2, (rewritten_config _ _ _ Hcfg), Hleft.
    apply bool_decide_ext. unfold rewritten.
    by apply replace_changes_iff. }
  destruct (would_modify (self s2) (fs s2) p) eqn:Hw; symmetry in Hwould.
  - apply bool_decide_eq_true in Hwould.
    rewrite (process_file_counts _ _ Hw). split; [lia|done].
  - apply bool_decide_eq_false in Hwould.
    destruct (process_file_keeps _ _ Hw) as (_ & -> & _).
    split; [intros _|done].
    apply dec_stable. by intros Hc.
Qed.

Lemma second_pass_modifies_iff_witness :
  let s := Scenario.begin Scenario.updater Scenario.site in
  let s2 := snd (process_file Scenario.a_html s) in
  let left := replace (cps "10.0.0.1") (cps "10.0.0.2")
                (decode Scenario.original) in
  (exists bs', read_file (fs s2) Scenario.a_html = Ok bs' /\ decode bs' = left)
  /\ (files_modified (self (snd (process_file Scenario.a_html s2)))
      = files_modified (self s2)
      <-> count (cps "10.0.0.1") left = 0).
Proof.
  apply (second_pass_modifies_iff Scenario.a_html
           (Scenario.begin Scenario.updater Scenario.site)
           (snd (process_file Scenario.a_html
                   (Scenario.begin Scenario.updater Scenario.site)))
           Scenario.original).
  - repeat split; try reflexivity. discriminate.
  - reflexivity.
  - reflexivity.
  - vm_compute. reflexivity.
  - reflexivity.
  - reflexivity.
Defined.

(** In the scenario of the specification the second run changes nothing. *)
Example rerun_scenario :
  let args := {| arg_directory := "site"; arg_old_ip := "10.0.0.1";
                 arg_new_ip := "10.0.0.2"; arg_extensions := [".html"];
                 arg_no_backup := false; arg_dry_run := false |} in
  files_modified (self (snd (main args Scenario.site))) = 1%Z
  /\ files_modified (self (snd (rerun args Scenario.site))) = 0%Z
  /\ files_processed (self (snd (rerun args Scenario.site))) = 1%Z.
Proof. repeat apply conj; vm_compute; reflexivity. Qed.

(** C3, as the claim has it, fails in two ways. With 10.0.0.1 replaced by
    10.0.0.10 the first run leaves [10.0.0.10] in the file, where the old
    IP occurs again, and the second run modifies the file once more. And
    with [.bak] among the extensions, the second run finds the backup the
    first run made, which holds the old IP, and modifies it. *)
Lemma rerun_modifies_again :
  let args := {| arg_directory := "site"; arg_old_ip := "10.0.0.1";
                 arg_new_ip := "10.0.0.10"; arg_extensions := [".html"];
                 arg_no_backup := false; arg_dry_run := false |} in
  let args2 := {| arg_directory := "site"; arg_old_ip := "10.0.0.1";
                  arg_new_ip := "10.0.0.2"; arg_extensions := [".html"; "bak"];
                  arg_no_backup := false; arg_dry_run := false |} in
  (valid (updater_of args) Scenario.site
   /\ files_modified (self (snd (main args Scenario.site))) = 1%Z
   /\ data <$> files (fs (snd (main args Scenario.site))) !! Scenario.a_html
      = Some (list_byte_of_string "Server at 10.0.0.10 ready")
   /\ files_modified (self (snd (rerun args Scenario.site))) = 1%Z
   /\ data <$> files (fs (snd (rerun args Scenario.site))) !! Scenario.a_html
      = Some (list_byte_of_string "Server at 10.0.0.100 ready"))
  /\ (valid (updater_of args2) Scenario.site
      /\ target_files (updater_of args2) Scenario.site = [Scenario.a_html]
      /\ files_modified (self (snd (main args2 Scenario.site))) = 1%Z
      /\ target_files (updater_of args2) (fs (snd (main args2 Scenario.site)))
         = [("site", "a.html.bak"); Scenario.a_html]
      /\ files_modified (self (snd (rerun args2 Scenario.site))) = 1%Z
      /\ data <$> files (fs (snd (rerun args2 Scenario.site)))
                    !! ("site", "a.html.bak")
         = Some (list_byte_of_string "Server at 10.0.0.2 ready")).
Proof.
  split; split.
  - repeat split; try reflexivity. discriminate.
  - repeat apply conj; vm_compute; reflexivity.
  - repeat split; try reflexivity. discriminate.
  - repeat apply conj; vm_compute; reflexivity.
Qed.

(** * Further properties *)

(** ** Finding the files *)

Lemma target_files_In (u : LinkUpdater) (f : filesystem) (p : path) :
  In p (target_files u f)
  <-> exists root dirs names file,
        In (root, dirs, names) (os_walk f (directory u))
        /\ In file names
        /\ matches_extension (extensions u) file = true
        /\ p = joinpath root file.
Proof.
  unfold target_files. rewrite in_flat_map. split.
  - intros ([[root dirs] names] & Hw & Hp).
    apply in_map_iff in Hp as (file & <- & Hf).
    apply filter_In in Hf as [Hf Hm]. by exists root, dirs, names, file.
  - intros (root & dirs & names & file & Hw & Hf & Hm & ->).
    exists (root, dirs, names). split; [done|].
    apply in_map_iff. exists file. split; [done|]. by apply filter_In.
Qed.

(** X1. [find_target_files] raises nothing and changes neither the object,
    the store nor the log. The list it returns holds exactly the paths
    [Path(root) / file] for the files the walk lists whose suffix, in lower
    case, is one of the extensions. *)
Theorem find_target_files_spec (s : state) :
  exists l,
    find_target_files s = (Ok l, s)
    /\ forall p,
         p ∈ l
         <-> exists root dirs names file,
               (root, dirs, names) ∈ os_walk (fs s) (directory (self s))
               /\ file ∈ names
               /\ lower (suffix_of_name file) ∈ extensions (self s)
               /\ p = (Path root, file).
Proof.
  exists (target_files (self s) (fs s)). split; [done|].
  intros p. rewrite list_elem_of_In, target_files_In. split.
  - intros (root & dirs & names & file & Hw & Hf & Hm & ->).
    exists root, dirs, names, file.
    unfold matches_extension in Hm. apply bool_decide_eq_true_1 in Hm.
    rewrite !list_elem_of_In. rewrite list_elem_of_In in Hm. done.
  - intros (root & dirs & names & file & Hw & Hf & Hm & ->).
    exists root, dirs, names, file.
    apply list_elem_of_In in Hw. apply list_elem_of_In in Hf.
    repeat split; try done.
    unfold matches_extension. by apply bool_decide_eq_true_2.
Qed.

Lemma init_extensions_dotted
    (d o n : string) (exts : option (list string)) (b dr : bool) (e : string) :
  In e (extensions (init d o n exts b dr)) -> startswith_dot e = true.
Proof.
  simpl. intros He.
  apply in_map_iff in He as (e1 & <- & He1).
  apply in_map_iff in He1 as (e0 & <- & _).
  apply lower_startswith_dot, startswith_dot_add.
Qed.

(** X2. For an object built by the constructor, a file whose name has no
    suffix (no dot, only a leading dot as in [.html], or a final dot) is
    never a target, whatever the extensions are. *)
Theorem no_suffix_never_target
    (d o n : string) (exts : option (list string)) (b dr : bool)
    (f : filesystem) (root file : string) :
  suffix_of_name file = "" ->
  (root, file) ∉ target_files (init d o n exts b dr) f.
Proof.
  intros Hsfx Hin. apply list_elem_of_In, target_files_In in Hin
    as (root' & dirs & names & file' & _ & _ & Hm & [= -> ->]).
  unfold matches_extension in Hm.
  apply bool_decide_eq_true_1, list_elem_of_In in Hm. rewrite Hsfx in Hm.
  by apply init_extensions_dotted in Hm.
Qed.

Lemma no_suffix_never_target_witness :
  ("site", ".html")
  ∉ target_files (init "site" "10.0.0.1" "10.0.0.2" (Some [".html"]) true false)
      Scenario.site.
Proof.
  apply (no_suffix_never_target "site" "10.0.0.1" "10.0.0.2" (Some [".html"])
           true false Scenario.site "site" ".html").
  reflexivity.
Defined.

(** X3. Extensions are matched without regard to case or to a leading dot
    in the extension given: a file matches exactly when its suffix in lower
    case is the lower case of one of the given extensions, a dot put in
    front where it had none. *)
Theorem extension_matching
    (d o n : string) (e0 : string) (exts : list string) (b dr : bool)
    (file : string) :
  matches_extension (extensions (init d o n (Some (e0 :: exts)) b dr)) file = true
  <-> exists e,
        In e (e0 :: exts)
        /\ lower (suffix_of_name file)
           = lower (if startswith_dot e then e else "." +:+ e).
Proof.
  unfold matches_extension. rewrite bool_decide_eq_true, list_elem_of_In.
  cbn [init extensions]. rewrite in_map_iff. split.
  - intros (e1 & He1 & Hin). apply in_map_iff in Hin as (e & <- & He).
    by exists e.
  - intros (e & He & Heq). eexists. split; [symmetry; exact Heq|].
    apply in_map_iff. by exists e.
Qed.

Example extension_matching_txt :
  let u := init "site" "10.0.0.1" "10.0.0.2" (Some ["txt"]) true false in
  matches_extension (extensions u) "notes.TXT" = true
  /\ matches_extension (extensions u) "a.html" = false.
Proof. split; reflexivity. Qed.

(** ** Validation and the exit status *)

Lemma validate_inputs_raises (s : state) (e : exn) :
  fst (validate_inputs s) = Raise e ->
  (exists why, e = ValueError why)
  \/ e = PermissionDenied (directory (self s))
     /\ directory (self s) ∈ unsearchable (fs s).
Proof.
  unfold validate_inputs, path_exists, is_dir, gets, raise, lift, mbind,
    M_bind, mret, M_ret. simpl.
  destruct (bool_decide (directory (self s) ∈ unsearchable (fs s))) eqn:Hu;
    simpl.
  - apply bool_decide_eq_true in Hu. intros [= <-]. by right.
  - repeat match goal with
           | |- context [if ?b then _ else _] => destruct b; simpl
           | |- context [match ?x with _ => _ end] => destruct x; simpl
           end;
      intros [= <-]; left; by eexists.
Qed.

(** X6. With an invalid configuration the program ends with status 1
    before looking for files: the store and the counters are untouched and
    the log holds one line, the error of the validation. This error is a
    [ValueError], or the [PermissionError] of [os.stat] when the directory
    given lies where it may not be looked up. *)
Theorem invalid_run_exits (args : arguments) (f : filesystem) :
  ~ valid (updater_of args) f ->
  exists e,
    main args f
    = (1%Z, {| self := updater_of args; fs := f;
               log := [(ERROR, ErrorMessage e)] |})
    /\ ((exists why, e = ValueError why)
        \/ e = PermissionDenied (Path (arg_directory args))
           /\ Path (arg_directory args) ∈ unsearchable f).
Proof.
  intros Hv.
  set (s := {| self := updater_of args; fs := f; log := [] |}).
  assert (exists e,
            run s = (SystemExit 1,
                     {| self := updater_of args; fs := f;
                        log := [(ERROR, ErrorMessage e)] |})
            /\ fst (validate_inputs s) = Raise e)
    as (e & Hrun & He).
  { change (~ valid (self s) (fs s)) in Hv.
    rewrite <- validate_inputs_ok in Hv.
    pose proof (validate_inputs_state s) as Hs.
    unfold run, run_body. unfold mbind at 1. unfold M_bind at 1.
    destruct (validate_inputs s) as [[[]|e] sv]; simpl in Hv, Hs; subst sv.
    - done.
    - by exists e. }
  exists e. split.
  - rewrite main_run. fold s. by rewrite Hrun.
  - by apply validate_inputs_raises in He.
Qed.

Lemma invalid_run_exits_witness :
  exists e,
    main {| arg_directory := "site/"; arg_old_ip := "10.0.0.1";
            arg_new_ip := "10.0.0.2"; arg_extensions := [".html"];
            arg_no_backup := false; arg_dry_run := false |} Scenario.hidden
    = (1%Z,
       {| self := updater_of
                    {| arg_directory := "site/"; arg_old_ip := "10.0.0.1";
                       arg_new_ip := "10.0.0.2"; arg_extensions := [".html"];
                       arg_no_backup := false; arg_dry_run := false |};
          fs := Scenario.hidden;
          log := [(ERROR, ErrorMessage e)] |})
    /\ ((exists why, e = ValueError why)
        \/ e = PermissionDenied (Path "site/")
           /\ Path "site/" ∈ unsearchable Scenario.hidden).
Proof.
  apply (invalid_run_exits
           {| arg_directory := "site/"; arg_old_ip := "10.0.0.1";
              arg_new_ip := "10.0.0.2"; arg_extensions := [".html"];
              arg_no_backup := false; arg_dry_run := false |} Scenario.hidden).
  intros [Hd _]. vm_compute in Hd. discriminate.
Defined.

(** The directory is reported as [pathlib] keeps it, and an unsearchable
    parent gives the error of [os.stat], not a missing directory. *)
Example invalid_run_messages :
  let args d := {| arg_directory := d; arg_old_ip := "10.0.0.1";
                   arg_new_ip := "10.0.0.2"; arg_extensions := [".html"];
                   arg_no_backup := false; arg_dry_run := false |} in
  log (snd (main (args "nowhere/") Scenario.site))
  = [(ERROR, ErrorMessage (ValueError (DirectoryDoesNotExist "nowhere")))]
  /\ log (snd (main (args "site") Scenario.hidden))
     = [(ERROR, ErrorMessage (PermissionDenied "site"))]
  /\ fst (main (args "./site//") Scenario.site) = 0%Z.
Proof. repeat apply conj; vm_compute; reflexivity. Qed.

(** X7. The exit status is 0 exactly when the configuration is valid, and
    1 otherwise: what happens to the files (unreadable, not writable,
    failing writes) never changes it. *)
Theorem exit_status (args : arguments) (f : filesystem) :
  (fst (main args f) = 0%Z <-> valid (updater_of args) f)
  /\ (fst (main args f) = 1%Z <-> ~ valid (updater_of args) f).
Proof.
  rewrite main_run.
  set (s := {| self := updater_of args; fs := f; log := [] |}).
  change (valid (updater_of args) f) with (valid (self s) (fs s)).
  destruct (fst (validate_inputs s)) as [[]|e] eqn:Hval.
  - apply validate_inputs_ok in Hval.
    destruct (run_valid s Hval) as (s0 & k & _ & _ & Hrun & _).
    cbv zeta in Hrun. rewrite Hrun. simpl. split; split; done.
  - assert (~ valid (self s) (fs s)) as Hnv.
    { intros Hv%validate_inputs_ok. congruence. }
    destruct (run_invalid s Hnv) as [e' ->]. simpl. split; split; done.
Qed.

(** ** What a run may touch *)

Lemma process_file_other_no_backup (p q : path) (s : state) :
  backup (self s) = false -> same_file (fs s) q p = false ->
  files (fs (snd (process_file p s))) !! q = files (fs s) !! q
  /\ forall x, same_file (fs s) q x = false ->
               same_file (fs (snd (process_file p s))) q x = false.
Proof.
  intros Hbak Hp. branches; try done;
    repeat match goal with
    | Hw : write_file ?f ?w _ = _, Hq : same_file ?f q ?w = false |- _ =>
        let H1 := fresh in
        let H2 := fresh in
        pose proof (write_file_other _ _ _ _ _ _ Hw Hq) as [_ H1];
        pose proof (fun x => write_file_apart _ _ _ _ x _ _ Hw Hq) as H2;
        clear Hw
    end; split; try congruence; eauto.
Qed.

(** X8. A run changes no file other than the target files and their
    [.bak] siblings: a path that names none of these files, directly or as
    a link, keeps what it held, or stays absent, whether the configuration
    is valid or not and whatever fails on the way. *)
Theorem run_touches_only_targets (s : state) (q : path) :
  (forall p, p ∈ target_files (self s) (fs s) ->
             same_file (fs s) q p = false
             /\ same_file (fs s) q (backup_path_of p) = false) ->
  files (fs (snd (run s))) !! q = files (fs s) !! q.
Proof.
  intros Hq.
  assert (forall l s0,
            (forall p, p ∈ l ->
                       same_file (fs s0) q p = false
                       /\ same_file (fs s0) q (backup_path_of p) = false) ->
            files (fs (snd (for_each process_file l s0))) !! q
            = files (fs s0) !! q) as Hloop.
  { induction l as [|p l IH]; intros s0 Hl; [done|].
    destruct (Hl p) as [Hp Hb]; [by left|].
    destruct (process_file_other p q s0 Hp Hb) as [Hfile Hapart].
    rewrite for_each_cons, IH; [done|].
    intros p' Hp'. destruct (Hl p') as [? ?]; [by right|].
    split; by apply Hapart. }
  destruct (fst (validate_inputs s)) as [[]|e] eqn:Hval.
  - apply validate_inputs_ok in Hval.
    destruct (run_valid s Hval) as (s0 & k & _ & Hfs & Hrun & _).
    cbv zeta in Hrun. rewrite Hrun. cbn [snd fs].
    rewrite Hloop; rewrite Hfs; [done|apply Hq].
  - assert (~ valid (self s) (fs s)) as Hnv.
    { intros Hv%validate_inputs_ok. congruence. }
    by destruct (run_invalid s Hnv) as [e' ->].
Qed.

Lemma run_touches_only_targets_witness :
  files (fs (snd (run (Scenario.begin Scenario.updater Scenario.site))))
    !! Scenario.b_txt
  = files (fs (Scenario.begin Scenario.updater Scenario.site)) !! Scenario.b_txt.
Proof.
  apply (run_touches_only_targets
           (Scenario.begin Scenario.updater Scenario.site) Scenario.b_txt).
  intros p Hp. vm_compute in Hp. apply list_elem_of_In in Hp as [<-|[]].
  split; reflexivity.
Defined.

(** X9. With backups off, a run changes no file other than the target
    files: a path that names none of them, directly or as a link, keeps
    what it held, and no [.bak] file is created or overwritten. *)
Theorem no_backup_touches_only_targets (s : state) (q : path) :
  backup (self s) = false ->
  (forall p, p ∈ target_files (self s) (fs s) ->
             same_file (fs s) q p = false) ->
  files (fs (snd (run s))) !! q = files (fs s) !! q.
Proof.
  intros Hbak Hq.
  assert (forall l s0,
            backup (self s0) = false ->
            (forall p, p ∈ l -> same_file (fs s0) q p = false) ->
            files (fs (snd (for_each process_file l s0))) !! q
            = files (fs s0) !! q) as Hloop.
  { induction l as [|p l IH]; intros s0 Hb Hl; [done|].
    assert (same_file (fs s0) q p = false) as Hp by (apply Hl; by left).
    destruct (process_file_other_no_backup p q s0 Hb Hp) as [Hfile Hapart].
    rewrite for_each_cons, IH; [done| |].
    - by rewrite (config_backup _ _ (process_file_config p s0)).
    - intros p' Hp'. apply Hapart, Hl. by right. }
  destruct (fst (validate_inputs s)) as [[]|e] eqn:Hval.
  - apply validate_inputs_ok in Hval.
    destruct (run_valid s Hval) as (s0 & k & Hself & Hfs & Hrun & _).
    cbv zeta in Hrun. rewrite Hrun. cbn [snd fs].
    rewrite Hloop; rewrite ?Hfs, ?Hself; [done|done|apply Hq].
  - assert (~ valid (self s) (fs s)) as Hnv.
    { intros Hv%validate_inputs_ok. congruence. }
    by destruct (run_invalid s Hnv) as [e' ->].
Qed.

Lemma no_backup_touches_only_targets_witness :
  let s := Scenario.begin
             (init "site" "10.0.0.1" "10.0.0.2" (Some [".html"]) false false)
             Scenario.site in
  files (fs (snd (run s))) !! ("site", "a.html.bak")
  = files (fs s) !! ("site", "a.html.bak").
Proof.
  apply (no_backup_touches_only_targets
           (Scenario.begin
              (init "site" "10.0.0.1" "10.0.0.2" (Some [".html"]) false false)
              Scenario.site) ("site", "a.html.bak")).
  - reflexivity.
  - intros p Hp. vm_compute in Hp. apply list_elem_of_In in Hp as [<-|[]].
    reflexivity.
Defined.

(** ** What one file does to the counters *)

Lemma count_empty_sub_pos (s : text) : count [] s ≠ 0.
Proof. by destruct s. Qed.

(** X10. A file that can be read and whose text holds no occurrence of the
    old IP is left alone: nothing is written, no backup is made, the two
    modification counters stay, [files_processed] grows by one and the only
    log line is the DEBUG line, whatever the flags are. *)
Theorem file_without_old_ip (p : path) (s : state) (bs : list byte) :
  read_file (fs s) p = Ok bs ->
  count (cps (old_ip (self s))) (decode bs) = 0 ->
  process_file p s
  = (Ok tt, {| self := add_files_processed 1 (self s); fs := fs s;
               log := log s ++ [(DEBUG, NoChangesNeeded p)] |}).
Proof.
  intros Hread Hc.
  destruct (decide (cps (old_ip (self s)) = [])) as [Hnil|Hne].
  - rewrite Hnil in Hc. by apply count_empty_sub_pos in Hc.
  - apply (process_file_unchanged p s bs Hread).
    unfold rewritten. by apply replace_absent.
Qed.

Lemma file_without_old_ip_witness :
  let s := Scenario.begin
             (init "site" "192.168.0.1" "10.0.0.2" None true false)
             Scenario.site in
  process_file Scenario.a_html s
  = (Ok tt, {| self := add_files_processed 1 (self s); fs := fs s;
               log := log s ++ [(DEBUG, NoChangesNeeded Scenario.a_html)] |}).
Proof.
  apply (file_without_old_ip Scenario.a_html
           (Scenario.begin
              (init "site" "192.168.0.1" "10.0.0.2" None true false)
              Scenario.site)
           Scenario.original).
  - reflexivity.
  - vm_compute. reflexivity.
Defined.

(** X11. Under a valid configuration a file adds one to [files_modified]
    exactly when it can be read and its text holds the old IP, and nothing
    otherwise; neither the flags nor a failing backup or write change
    that. *)
Theorem files_modified_step (p : path) (s : state) :
  valid (self s) (fs s) ->
  files_modified (self (snd (process_file p s)))
  = (files_modified (self s)
     + match read_file (fs s) p with
       | Ok bs =>
           if Nat.eqb (count (cps (old_ip (self s))) (decode bs)) 0
           then 0 else 1
       | Raise _ => 0
       end)%Z.
Proof.
  intros Hv.
  pose proof (valid_old_nonempty _ _ Hv) as Hne.
  pose proof (valid_old_new _ _ Hv) as Hon.
  destruct (would_modify (self s) (fs s) p) eqn:Hw.
  - rewrite (process_file_counts _ _ Hw). unfold would_modify in Hw.
    destruct (read_file (fs s) p) as [bs|e]; [|done].
    apply bool_decide_eq_true_1 in Hw. unfold rewritten in Hw.
    apply (replace_changes_iff _ _ Hne _ Hon) in Hw.
    by apply Nat.eqb_neq in Hw as ->.
  - destruct (process_file_keeps _ _ Hw) as (_ & -> & _).
    unfold would_modify in Hw.
    destruct (read_file (fs s) p) as [bs|e]; [|lia].
    apply bool_decide_eq_false_1 in Hw. unfold rewritten in Hw.
    destruct (Nat.eqb_spec (count (cps (old_ip (self s))) (decode bs)) 0)
      as [_|Hc]; [lia|].
    exfalso. apply Hw. by apply replace_present.
Qed.

Lemma files_modified_step_witness :
  let s := Scenario.begin Scenario.updater Scenario.locked in
  files_modified (self (snd (process_file Scenario.a_html s)))
  = (files_modified (self s)
     + match read_file (fs s) Scenario.a_html with
       | Ok bs =>
           if Nat.eqb (count (cps (old_ip (self s))) (decode bs)) 0
           then 0 else 1
       | Raise _ => 0
       end)%Z.
Proof.
  apply (files_modified_step Scenario.a_html
           (Scenario.begin Scenario.updater Scenario.locked)).
  repeat split; try reflexivity. discriminate.
Defined.

Lemma process_file_steps (p : path) (s : state) :
  let u' := self (snd (process_file p s)) in
  (files_processed (self s) <= files_processed u' <= files_processed (self s) + 1
   /\ files_modified (self s) <= files_modified u' <= files_modified (self s) + 1)%Z.
Proof. branches; lia. Qed.

Lemma for_each_steps (l : list path) (s : state) :
  let u' := self (snd (for_each process_file l s)) in
  (files_processed (self s) <= files_processed u'
     <= files_processed (self s) + Z.of_nat (length l)
   /\ files_modified (self s) <= files_modified u'
     <= files_modified (self s) + Z.of_nat (length l))%Z.
Proof.
  revert s. induction l as [|p l IH]; intros s.
  - simpl. lia.
  - rewrite for_each_cons. cbv zeta.
    pose proof (process_file_steps p s) as Hp.
    pose proof (IH (snd (process_file p s))) as Hl.
    cbv zeta in Hp, Hl. rewrite length_cons. lia.
Qed.

(** X12. The counters [files_processed] and [files_modified] never go
    down during a run, and each grows by at most the number of files
    found. *)
Theorem run_counter_bounds (s : state) :
  let n := Z.of_nat (length (target_files (self s) (fs s))) in
  let u' := self (snd (run s)) in
  (files_processed (self s) <= files_processed u' <= files_processed (self s) + n
   /\ files_modified (self s) <= files_modified u' <= files_modified (self s) + n)%Z.
Proof.
  cbv zeta.
  destruct (fst (validate_inputs s)) as [[]|e] eqn:Hval.
  - apply validate_inputs_ok in Hval.
    destruct (run_valid s Hval) as (s0 & k & Hself & _ & Hrun & _).
    cbv zeta in Hrun. rewrite Hrun. cbn [snd self].
    pose proof (for_each_steps (target_files (self s) (fs s)) s0) as H.
    cbv zeta in H. rewrite Hself in H. exact H.
  - assert (~ valid (self s) (fs s)) as Hnv.
    { intros Hv%validate_inputs_ok. congruence. }
    destruct (run_invalid s Hnv) as [e' ->]. cbn [snd self]. lia.
Qed.

(** ** The report *)

Lemma run_found (s : state) (p : path) (l : list path) :
  valid (self s) (fs s) ->
  target_files (self s) (fs s) = p :: l ->
  let s0 := {| self := self s; fs := fs s;
               log := log (announced s) ++ [(INFO, FoundFiles (S (length l)))] |} in
  let s1 := snd (for_each process_file (p :: l) s0) in
  run s = (Returned, {| self := self s1; fs := fs s1;
                        log := log s1 ++ summary (self s1) |}).
Proof.
  intros Hv Ht. apply validate_inputs_ok in Hv.
  pose proof (validate_inputs_state s) as Hs.
  unfold run, run_body. unfold mbind at 1. unfold M_bind at 1.
  destruct (validate_inputs s) as [r sv]. simpl in Hv, Hs. subst r sv.
  unfold find_target_files, logger, gets, mbind, M_bind, mret, M_ret.
  cbn -[for_each]. rewrite Ht. cbn -[for_each].
  repeat rewrite <- (app_assoc (log s)). cbn -[for_each].
  match goal with
  | |- context [for_each process_file (p :: l) ?s0] =>
      pose proof (for_each_returns (p :: l) s0) as Hret;
      destruct (for_each process_file (p :: l) s0) as [r s1]
  end.
  simpl in Hret. subst r. unfold summary. cbn [snd self fs log].
  destruct (dry_run (self s1)); [|destruct (_ && _)]; cbn [snd self fs log];
    rewrite <- ?app_assoc; try rewrite app_nil_r; reflexivity.
Qed.

Lemma run_none (s : state) :
  valid (self s) (fs s) ->
  target_files (self s) (fs s) = [] ->
  run s = (Returned,
           {| self := self s; fs := fs s;
              log := log (announced s)
                     ++ [(WARNING, NoFilesFound (extensions (self s)))] |}).
Proof.
  intros Hv Ht. apply validate_inputs_ok in Hv.
  pose proof (validate_inputs_state s) as Hs.
  unfold run, run_body. unfold mbind at 1. unfold M_bind at 1.
  destruct (validate_inputs s) as [r sv]. simpl in Hv, Hs. subst r sv.
  unfold find_target_files, logger, gets, mbind, M_bind, mret, M_ret.
  cbn -[for_each]. rewrite Ht. cbn -[for_each].
  repeat rewrite <- (app_assoc (log s)). reflexivity.
Qed.

(** X13. When files are found under a valid configuration, the log of the
    run is: the six parameter lines, the number of files found, the lines
    of the files, and the summary, which shows the counters as they are
    when the run ends and closes with the dry-run line, or with the backup
    line when backups are on and [files_modified] is positive. *)
Theorem run_report (s : state) :
  valid (self s) (fs s) ->
  target_files (self s) (fs s) ≠ [] ->
  exists mid,
    log (snd (run s))
    = log (announced s)
      ++ [(INFO, FoundFiles (length (target_files (self s) (fs s))))]
      ++ mid ++ summary (self (snd (run s))).
Proof.
  intros Hv Hne.
  destruct (target_files (self s) (fs s)) as [|p l] eqn:Ht; [done|].
  pose proof (run_found s p l Hv Ht) as Hrun. cbv zeta in Hrun.
  rewrite Hrun. cbn [snd self log].
  match goal with
  | |- context [for_each process_file (p :: l) ?s0] =>
      destruct (for_each_log (p :: l) s0) as [k Hk]
  end.
  exists k. rewrite Hk. cbn [log length]. by rewrite <- !app_assoc.
Qed.

Lemma run_report_witness :
  let s := Scenario.begin Scenario.updater Scenario.site in
  exists mid,
    log (snd (run s))
    = log (announced s)
      ++ [(INFO, FoundFiles (length (target_files (self s) (fs s))))]
      ++ mid ++ summary (self (snd (run s))).
Proof.
  apply (run_report (Scenario.begin Scenario.updater Scenario.site)).
  - repeat split; try reflexivity. discriminate.
  - vm_compute. discriminate.
Defined.

Lemma process_file_tally (p : path) (s : state) :
  exists k,
    log (snd (process_file p s)) = log s ++ k
    /\ (files_processed (self (snd (process_file p s)))
        + Z.of_nat (length (List.filter is_processing_error k))
        = files_processed (self s) + 1)%Z.
Proof.
  branches; eexists;
    (split; [rewrite <- ?app_assoc; reflexivity | simpl; lia]).
Qed.

Lemma for_each_tally (l : list path) (s : state) :
  exists k,
    log (snd (for_each process_file l s)) = log s ++ k
    /\ (files_processed (self (snd (for_each process_file l s)))
        + Z.of_nat (length (List.filter is_processing_error k))
        = files_processed (self s) + Z.of_nat (length l))%Z.
Proof.
  revert s. induction l as [|p l IH]; intros s.
  - exists []. simpl. rewrite app_nil_r. split; [done|lia].
  - rewrite for_each_cons.
    destruct (process_file_tally p s) as (k1 & Hk1 & Hn1).
    destruct (IH (snd (process_file p s))) as (k2 & Hk2 & Hn2).
    exists (k1 ++ k2). split.
    + by rewrite Hk2, Hk1, app_assoc.
    + rewrite List.filter_app, length_app, length_cons. lia.
Qed.

Lemma summary_no_error (u : LinkUpdater) :
  List.filter is_processing_error (summary u) = [].
Proof.
  unfold summary. rewrite List.filter_app. simpl.
  by destruct (dry_run u); [|destruct (_ && _)].
Qed.

(** X14. Under a valid configuration every file found ends in exactly one
    of two ways: it is counted in [files_processed], or it has its
    [Error processing] line in the log. The counter and the number of
    these lines add up to the number of files found. *)
Theorem processed_plus_errors (args : arguments) (f : filesystem) :
  valid (updater_of args) f ->
  let s' := snd (main args f) in
  (files_processed (self s')
   + Z.of_nat (length (List.filter is_processing_error (log s')))
   = Z.of_nat (length (target_files (updater_of args) f)))%Z.
Proof.
  intros Hv. cbv zeta. rewrite main_run.
  set (s := {| self := updater_of args; fs := f; log := [] |}).
  change (valid (self s) (fs s)) in Hv.
  change (target_files (updater_of args) f)
    with (target_files (self s) (fs s)).
  destruct (target_files (self s) (fs s)) as [|p l] eqn:Ht.
  - rewrite (run_none s Hv Ht). reflexivity.
  - pose proof (run_found s p l Hv Ht) as Hrun. cbv zeta in Hrun.
    rewrite Hrun. cbn [snd self log].
    clear Hrun.
    match goal with
    | |- context [for_each process_file (p :: l) ?s0] =>
        destruct (for_each_tally (p :: l) s0) as (k & Hk & Hn);
        set (s1 := snd (for_each process_file (p :: l) s0)) in *
    end.
    clearbody s1. rewrite Hk. cbn [self log] in Hn |- *.
    rewrite !List.filter_app, summary_no_error, app_nil_r.
    change (files_processed (self s)) with 0%Z in Hn.
    rewrite length_app. simpl. simpl in Hn. lia.
Qed.

Lemma processed_plus_errors_witness :
  let args := {| arg_directory := "site"; arg_old_ip := "10.0.0.1";
                 arg_new_ip := "10.0.0.2"; arg_extensions := [".html"; "txt"];
                 arg_no_backup := false; arg_dry_run := false |} in
  let s' := snd (main args Scenario.unreadable) in
  (files_processed (self s')
   + Z.of_nat (length (List.filter is_processing_error (log s')))
   = Z.of_nat (length (target_files (updater_of args) Scenario.unreadable)))%Z.
Proof.
  apply (processed_plus_errors
           {| arg_directory := "site"; arg_old_ip := "10.0.0.1";
              arg_new_ip := "10.0.0.2"; arg_extensions := [".html"; "txt"];
              arg_no_backup := false; arg_dry_run := false |}
           Scenario.unreadable).
  repeat split; try reflexivity. discriminate.
Defined.

(** ** What is read and what is written *)

(** X4. Reading drops the bytes that are no UTF-8 and translates the
    newlines, so the text read holds Unicode scalar values only and no
    carriage return; such a text, written to a file and read again, is the
    same text. *)
Theorem text_read_and_written (bs : list byte) :
  Forall (fun c => scalar c = true /\ c ≠ 13%N) (decode bs)
  /\ decode (encode (decode bs)) = decode bs.
Proof.
  pose proof (decode_clean bs) as Hclean. split.
  - eapply Forall_impl; [exact Hclean|]. intros c Hc. by apply clean_iff.
  - by apply decode_encode.
Qed.

Lemma byte_of_N_cr (n : N) : byte_of_N n = x0d -> n = 13%N.
Proof.
  intros H. destruct (N.lt_ge_cases n 256) as [Hn|Hn].
  - rewrite <- (to_N_byte_of_N n Hn), H. done.
  - unfold byte_of_N in H. destruct (Byte.of_N n) as [b|] eqn:Hb; [|done].
    apply Byte.to_of_N in Hb. pose proof (Byte.to_N_bounded b). lia.
Qed.

Lemma encode_no_cr (t : text) :
  Forall (fun c => clean c = true) t -> x0d ∉ encode t.
Proof.
  induction 1 as [|c t Hc _ IH]; [by intros ?%elem_of_nil|].
  unfold encode in *. cbn [flat_map]. rewrite elem_of_app.
  intros [Hin|Hin]; [|done].
  apply clean_iff in Hc as [_ Hc]. unfold utf8_encode_cp in Hin.
  repeat match goal with
         | H : context [if ?b then _ else _] |- _ => destruct b eqn:?
         end;
    tests;
    repeat match goal with
           | H : _ ∈ _ :: _ |- _ => apply elem_of_cons in H as [H|H]
           | H : _ ∈ [] |- _ => by apply elem_of_nil in H
           | H : x0d = byte_of_N _ |- _ => symmetry in H; apply byte_of_N_cr in H
           end; nlia.
Qed.

(** X15. Under a valid configuration, a file that is rewritten without an
    error holds the encoding of the rewritten text and nothing else of
    what it held: the bytes that were no UTF-8 are gone, and so is every
    carriage return, so [\r\n] line ends have become [\n]. *)
Theorem rewritten_file_normalised (p : path) (s : state) (bs : list byte) :
  valid (self s) (fs s) ->
  dry_run (self s) = false ->
  read_file (fs s) p = Ok bs ->
  rewritten (self s) (decode bs) ≠ decode bs ->
  fst (process_file_body p s) = Ok tt ->
  read_file (fs (snd (process_file p s))) p
  = Ok (encode (rewritten (self s) (decode bs)))
  /\ x0d ∉ encode (rewritten (self s) (decode bs)).
Proof.
  intros Hv Hdry Hread Hdiff Hok. split.
  - destruct (process_file_leaves p s bs Hread Hdry Hok)
      as (bs' & -> & [->|[_ Hsame]]); done.
  - apply encode_no_cr, replace_Forall; [|apply decode_clean].
    apply ip_clean. by destruct Hv as (_ & _ & ? & _).
Qed.

Lemma rewritten_file_normalised_witness :
  let s := Scenario.begin Scenario.updater Scenario.damaged in
  read_file (fs (snd (process_file Scenario.a_html s))) Scenario.a_html
  = Ok (encode (rewritten (self s) (decode (Scenario.original ++ [xff]))))
  /\ x0d ∉ encode (rewritten (self s) (decode (Scenario.original ++ [xff]))).
Proof.
  apply (rewritten_file_normalised Scenario.a_html
           (Scenario.begin Scenario.updater Scenario.damaged)
           (Scenario.original ++ [xff])).
  - repeat split; try reflexivity. discriminate.
  - reflexivity.
  - reflexivity.
  - apply (bool_decide_unpack _). vm_compute. exact I.
  - vm_compute. reflexivity.
Defined.

(** X16. When the backup cannot be written, the failure is logged twice,
    by [backup_file] and by [process_file], with the same exception; the
    file is counted as modified although it is not opened for writing. *)
Theorem backup_failure_logged_twice
    (p : path) (s : state) (bs : list byte) (f' : filesystem) (e : exn) :
  backup (self s) = true ->
  dry_run (self s) = false ->
  read_file (fs s) p = Ok bs ->
  rewritten (self s) (decode bs) ≠ decode bs ->
  valid_name (name p) ->
  write_file (fs s) (backup_path_of p) bs = (f', Some e) ->
  process_file p s
  = (Ok tt,
     {| self := add_replacements_made (file_replacements (self s) (decode bs))
                  (add_files_modified 1 (self s));
        fs := f';
        log := log s ++ [(ERROR, FailedToCreateBackup p e);
                         (ERROR, ErrorProcessing p e)] |})
  /\ (e = PermissionError (backup_path_of p) /\ f' = fs s
      \/ e = OSError (backup_path_of p)).
Proof.
  intros Hbak Hdry Hread Hdiff Hname Hwrite. unfold rewritten in *.
  pose proof (bool_decide_eq_true_2 _ Hdiff) as Hchg.
  pose proof (with_suffix_bak_ok p Hname) as Hsfx.
  split.
  - monad_unfold. norm. by rewrite <- app_assoc.
  - apply write_file_raised in Hwrite as [[-> ->]|[-> _]]; [by left|by right].
Qed.

Lemma backup_failure_logged_twice_witness :
  let s := Scenario.begin Scenario.updater Scenario.sealed in
  let e := PermissionError (backup_path_of Scenario.a_html) in
  process_file Scenario.a_html s
  = (Ok tt,
     {| self := add_replacements_made
                  (file_replacements (self s) (decode Scenario.original))
                  (add_files_modified 1 (self s));
        fs := Scenario.sealed;
        log := log s ++ [(ERROR, FailedToCreateBackup Scenario.a_html e);
                         (ERROR, ErrorProcessing Scenario.a_html e)] |})
  /\ (e = PermissionError (backup_path_of Scenario.a_html)
      /\ Scenario.sealed = fs s
      \/ e = OSError (backup_path_of Scenario.a_html)).
Proof.
  apply (backup_failure_logged_twice Scenario.a_html
           (Scenario.begin Scenario.updater Scenario.sealed)
           Scenario.original Scenario.sealed
           (PermissionError (backup_path_of Scenario.a_html))).
  - reflexivity.
  - reflexivity.
  - reflexivity.
  - apply (bool_decide_unpack _). vm_compute. exact I.
  - split; [discriminate | reflexivity].
  - reflexivity.
Defined.
